(** * Hybrid movie recommender: the ranking function of [app.py]

  A shallow embedding of [hybrid_recommend] (app.py, lines 113-138) and of
  the pandas / numpy operations it is built from, followed by the
  properties of the ranking.

  Modelling conventions.
  - Scores are floats in the source.  A finite float is modelled as an
    exact rational ([Qc], canonical rationals, Leibniz equality); the two
    infinities and NaN are kept as separate values, because the source
    divides by [max - min] without a guard and IEEE 754 makes [0 / 0] a
    NaN.  Rounding, overflow and the sign of zero are not modelled.
  - The cells of the prediction table and of the similarity matrix are
    finite numbers.
  - A Python exception is the [Raised] outcome of the [result] type; a
    returned DataFrame is [Ok].
  - The catalog has the [RangeIndex] that [pd.read_csv] gives it: the
    index label of a row is its position.  A filtered frame keeps the
    labels of the rows that survive. *)

From Stdlib Require Import QArith Qcanon Lqa.
From Stdlib Require Floats.PrimFloat.
From Stdlib Require Import Strings.Ascii.
From stdpp Require Import base numbers list strings gmap sorting pretty.

(** ** Floats *)

Module Float.
Local Open Scope Qc_scope.

Inductive fval : Type :=
  | Fin (q : Qc)
  | Inf (neg : bool)
  | NaN.

#[global] Instance fval_eq_dec : EqDecision fval.
Proof. solve_decision. Defined.

Definition Qcleb (x y : Qc) : bool := Qle_bool x y.
Definition Qcltb (x y : Qc) : bool := negb (Qcleb y x).

Definition Qcmin (x y : Qc) : Qc := if Qcleb x y then x else y.
Definition Qcmax (x y : Qc) : Qc := if Qcleb x y then y else x.

Definition is_nan (x : fval) : bool :=
  match x with NaN => true | _ => false end.

Definition fneg (x : fval) : fval :=
  match x with
  | Fin q => Fin (- q)
  | Inf s => Inf (negb s)
  | NaN => NaN
  end.

Definition fadd (x y : fval) : fval :=
  match x, y with
  | Fin a, Fin b => Fin (a + b)
  | Fin _, Inf s | Inf s, Fin _ => Inf s
  | Inf s, Inf s' => if Bool.eqb s s' then Inf s else NaN
  | NaN, _ | _, NaN => NaN
  end.

Definition fsub (x y : fval) : fval := fadd x (fneg y).

Definition fmul (x y : fval) : fval :=
  match x, y with
  | Fin a, Fin b => Fin (a * b)
  | Fin a, Inf s | Inf s, Fin a =>
      if decide (a = 0) then NaN else Inf (xorb s (Qcltb a 0))
  | Inf s, Inf s' => Inf (xorb s s')
  | NaN, _ | _, NaN => NaN
  end.

(** [x / y]; a zero divisor is the positive zero that [max - min] is when
    the two are equal. *)
Definition fdiv (x y : fval) : fval :=
  match x, y with
  | Fin a, Fin b =>
      if decide (b = 0)
      then (if decide (a = 0) then NaN else Inf (Qcltb a 0))
      else Fin (a / b)
  | Fin _, Inf _ => Fin 0
  | Inf s, Fin b => Inf (xorb s (Qcltb b 0))
  | Inf _, Inf _ => NaN
  | NaN, _ | _, NaN => NaN
  end.

(** IEEE comparison [x <= y]: false as soon as one side is a NaN. *)
Definition fleb (x y : fval) : bool :=
  match x, y with
  | NaN, _ | _, NaN => false
  | Inf true, _ | _, Inf false => true
  | Fin a, Fin b => Qcleb a b
  | _, _ => false
  end.

(** The order [sort_values(ascending=False)] realises with its default
    [na_position='last']: [x] may stand before [y] when [y] is a NaN, or
    neither is and [y <= x]. *)
Definition score_geb (x y : fval) : bool :=
  is_nan y || (negb (is_nan x) && fleb y x).


End Float.
Import Float.

(** ** Outcomes of a Python call *)

Inductive exn : Type := KeyError | IndexError | ValueError.

Inductive result (A : Type) : Type :=
| Ok (a : A)
| Raised (e : exn).
Arguments Ok {A} a.
Arguments Raised {A} e.

#[global] Instance exn_eq_dec : EqDecision exn.
Proof. solve_decision. Defined.

#[global] Instance result_ret : MRet result := λ A a, Ok a.
#[global] Instance result_bind : MBind result := λ A B f m,
match m with
| Ok a => f a
| Raised e => Raised e
end.

#[global] Instance result_fmap : FMap result := λ A B f m,
  match m with
  | Ok a => Ok (f a)
  | Raised e => Raised e
  end.

(** ** The pandas and numpy operations of the ranking path *)

Module Pandas.

(** A float Series whose index is a list of labels, in order. *)
Abbreviation Series := (list (Z * fval)).

Definition list_min (l : list Qc) : option Qc :=
  match l with
  | [] => None
  | x :: r => Some (foldr Qcmin x r)
  end.

Definition list_max (l : list Qc) : option Qc :=
  match l with
  | [] => None
  | x :: r => Some (foldr Qcmax x r)
  end.

Definition values (s : gmap Z Qc) : list Qc := (map_to_list s).*2.

(** [Series.min()] and [Series.max()]: NaN on an empty Series. *)
Definition series_min (s : gmap Z Qc) : fval :=
  from_option Fin NaN (list_min (values s)).
Definition series_max (s : gmap Z Qc) : fval :=
  from_option Fin NaN (list_max (values s)).

(** [ndarray.min()] and [ndarray.max()]: ValueError on an empty array. *)
Definition ndarray_min (a : list Qc) : result Qc :=
  from_option Ok (Raised ValueError) (list_min a).
Definition ndarray_max (a : list Qc) : result Qc :=
  from_option Ok (Raised ValueError) (list_max a).

(** [(x - lo) / (hi - lo)] *)
Definition min_max_scale (lo hi x : fval) : fval :=
  fdiv (fsub x lo) (fsub hi lo).

(** [(s - s.min()) / (s.max() - s.min())] on a Series *)
Definition series_min_max (s : gmap Z Qc) : gmap Z fval :=
  (λ x, min_max_scale (series_min s) (series_max s) (Fin x)) <$> s.

(** [(a - a.min()) / (a.max() - a.min())] on an array *)
Definition ndarray_min_max (a : list Qc) : result (list fval) :=
  lo ← ndarray_min a;
  hi ← ndarray_max a;
  mret ((λ x, min_max_scale (Fin lo) (Fin hi) (Fin x)) <$> a).

(** [s.reindex(index, fill_value=v)] *)
Definition reindex (s : gmap Z fval) (index : list Z) (fill_value : fval)
  : Series :=
  (λ l, (l, default fill_value (s !! l))) <$> index.

(** [pd.Series(data, index=index)] from an array *)
Definition mk_series (data : list fval) (index : list Z) : result Series :=
  if decide (length data = length index)
  then Ok (zip index data)
  else Raised ValueError.

(** [c * s] *)
Definition series_scale (c : fval) (s : Series) : Series :=
  (λ p, (p.1, fmul c p.2)) <$> s.

(** [s1 + s2] for two Series over the same index *)
Definition series_add (s1 s2 : Series) : Series :=
  zip_with (λ p1 p2, (p1.1, fadd p1.2 p2.2)) s1 s2.

Definition desc (p1 p2 : Z * fval) : Prop := score_geb p1.2 p2.2 = true.

(** The sorting algorithm behind [sort_values(kind=...)].  It receives the
    entries that are not NaN and returns them in descending order.  The
    source passes no [kind], so the pandas default is used, which makes no
    promise about the order of equal scores. *)
Class SortKind := {
  argsort_desc : Series → Series;
  argsort_desc_perm (s : Series) : argsort_desc s ≡ₚ s;
  argsort_desc_sorted (s : Series) :
    Forall (λ p, is_nan p.2 = false) s → StronglySorted desc (argsort_desc s)
}.

(** [s.sort_values(ascending=False)]: NaN entries last, in index order. *)
Definition sort_values `{SortKind} (s : Series) : Series :=
  argsort_desc (filter (λ p, is_nan p.2 = false) s)
    ++ filter (λ p, is_nan p.2 = true) s.

(** [x.head(n)] *)
Definition head {A} (n : Z) (l : list A) : list A :=
  if (0 <=? n)%Z then take (Z.to_nat n) l
  else take (length l - Z.to_nat (- n)) l.

(** [x.loc[label]] on a list of labelled rows *)
Definition loc {A} (x : list (Z * A)) (label : Z) : result A :=
  match list_find (λ p, p.1 = label) x with
  | Some (_, p) => Ok p.2
  | None => Raised KeyError
  end.

Fixpoint loc_list {A} (x : list (Z * A)) (labels : list Z)
  : result (list (Z * A)) :=
  match labels with
  | [] => Ok []
  | l :: ls =>
      a ← loc x l;
      r ← loc_list x ls;
      mret ((l, a) :: r)
  end.

(** [a[i]] on the rows of a two-dimensional array *)
Definition ndarray_row {A} (a : list A) (i : Z) : result A :=
  let n := Z.of_nat (length a) in
  let j := if (i <? 0)%Z then (i + n)%Z else i in
  if (0 <=? j)%Z && (j <? n)%Z
  then from_option Ok (Raised IndexError) (a !! Z.to_nat j)
  else Raised IndexError.

End Pandas.
Import Pandas.

(** ** The application *)

Module App.

(** A row of [movies2.csv] after [load_movies]. *)
Record movie : Type := Movie {
  id : Z;
  title : string;
  genres_list : list string
}.

(** Rows with their index labels. *)
Abbreviation DataFrame := (list (Z * movie)).

(** The frame [load_movies] returns: [pd.read_csv] numbers the rows. *)
Definition range_index (rows : list movie) : DataFrame :=
  imap (λ i m, (Z.of_nat i, m)) rows.

Definition index (df : DataFrame) : list Z := df.*1.
Definition titles (df : DataFrame) : list string := (λ r, title r.2) <$> df.

(** What [hybrid_recommend] reads besides its arguments: the module-level
    [selected_genres] set by the sidebar, and the answers of the metadata
    service behind [fetch_poster] and [fetch_trailer] (both catch every
    exception and return [None] then). *)
Record session : Type := Session {
  selected_genres : list string;
  fetch_poster : Z → option string;
  fetch_trailer : Z → option string
}.

(** A row of the returned frame,
    [recommendations[['title', 'poster', 'trailer', 'hybrid_score', 'id']]],
    with its index label. *)
Record recommendation : Type := Recommendation {
  rec_label : Z;
  rec_title : string;
  rec_poster : option string;
  rec_trailer : option string;
  rec_hybrid_score : fval;
  rec_id : Z
}.

(** [any(g in g_list for g in selected_genres)] *)
Definition genre_match (selected : list string) (m : movie) : bool :=
  existsb (λ g, bool_decide (g ∈ genres_list m)) selected.

(** Lines 114-117. *)
Definition filtered_movies (selected : list string) (movies_df : DataFrame)
  : DataFrame :=
  match selected with
  | [] => movies_df
  | _ :: _ => filter (λ r, genre_match selected r.2 = true) movies_df
  end.

(** Lines 123-124: normalise the user's whole row, then align it. *)
Definition cf_norm (cf_scores_user : gmap Z Qc) (candidates : list Z)
  : Series :=
  reindex (series_min_max cf_scores_user) candidates (Fin 0).

(** Line 126: [filtered_movies.index[filtered_movies['title'] == t][0]] *)
Definition title_index (df : DataFrame) (t : string) : result Z :=
  match index (filter (λ r, title r.2 = t) df) with
  | l :: _ => Ok l
  | [] => Raised IndexError
  end.

(** Lines 127-129. *)
Definition content_norm (similarity : list (list Qc)) (idx : Z)
    (candidates : list Z) : result Series :=
  row ← ndarray_row similarity idx;
  normalised ← ndarray_min_max row;
  mk_series normalised candidates.

(** Line 131. *)
Definition hybrid_scores (alpha : Qc) (cf content : Series) : Series :=
  series_add (series_scale (Fin alpha) cf)
             (series_scale (Fin (1 - alpha)%Qc) content).

(** Line 133. *)
Definition top_idx `{SortKind} (top_n : Z) (hybrid : Series) : list Z :=
  (head top_n (sort_values hybrid)).*1.

(** Lines 134-138. *)
Definition enrich (env : session) (row : Z * movie) (score : Z * fval)
  : recommendation :=
  {| rec_label := row.1;
     rec_title := title row.2;
     rec_poster := fetch_poster env (id row.2);
     rec_trailer := fetch_trailer env (id row.2);
     rec_hybrid_score := score.2;
     rec_id := id row.2 |}.

Definition hybrid_recommend `{SortKind} (env : session)
    (user_id : Z) (movie_title : string) (movies_df : list movie)
    (preds_df : gmap Z (gmap Z Qc)) (similarity : list (list Qc))
    (top_n : Z) (alpha : Qc) : result (list recommendation) :=
  let filtered := filtered_movies (selected_genres env)
                                  (range_index movies_df) in
  if decide (movie_title ∈ titles filtered) then
    cf_scores_user ← from_option Ok (Raised KeyError) (preds_df !! user_id);
    let cf := cf_norm cf_scores_user (index filtered) in
    idx ← title_index filtered movie_title;
    content ← content_norm similarity idx (index filtered);
    let hybrid := hybrid_scores alpha cf content in
    let top := top_idx top_n hybrid in
    rows ← loc_list filtered top;
    scores ← loc_list hybrid top;
    mret (zip_with (enrich env) rows scores)
  else
    Ok [].

(** The part of a returned row that the ranking decides. *)
Definition ranked (r : recommendation) : Z * string * fval * Z :=
  (rec_label r, rec_title r, rec_hybrid_score r, rec_id r).

(** An outcome without the columns that the metadata service fills. *)
Definition ranked_part (r : result (list recommendation))
  : result (list (Z * string * fval * Z)) :=
  fmap (M := result) (fmap (M := list) ranked) r.

(** The [poster] column of an outcome. *)
Definition posters (r : result (list recommendation))
  : result (list (option string)) :=
  fmap (M := result) (fmap (M := list) rec_poster) r.

(** The index labels of an outcome, in order. *)
Definition labels (r : result (list recommendation)) : result (list Z) :=
  fmap (M := result) (fmap (M := list) rec_label) r.


(** The index label and the [hybrid_score] of a returned row. *)
Definition label_score (r : recommendation) : Z * fval :=
  (rec_label r, rec_hybrid_score r).

End App.
Import App.

(** ** The specification's wording of the two normalisation steps

    Definitions that follow spec.md (sections 4.1 and 4.2, steps 4 and 6),
    kept apart from the embedding of the source for comparison. *)

Module Spec.

(** Section 4.1: zeros when [max == min]. *)
Definition normalize (scores : list Qc) : list fval :=
  match list_min scores, list_max scores with
  | Some lo, Some hi =>
      if decide (lo = hi) then (λ _, Fin 0%Qc) <$> scores
      else (λ x, Fin ((x - lo) / (hi - lo))%Qc) <$> scores
  | _, _ => []
  end.

(** Step 4: align the row to the candidates, filling with 0, then
    normalise the aligned vector. *)
Definition cf_norm (row : gmap Z Qc) (candidates : list Z)
  : list (Z * fval) :=
  zip candidates (normalize ((λ l, default 0%Qc (row !! l)) <$> candidates)).

(** Step 6: restrict the similarity row to the candidates' positions, then
    normalise the restricted vector. *)
Definition content_norm (row : list Qc) (candidates : list Z)
  : list (Z * fval) :=
  zip candidates
      (normalize (omap (λ l, row !! Z.to_nat l) candidates)).

End Spec.

(** ** Concrete data: the five-movie catalog of the specification *)

Module Scenario.

Definition q (n : Z) (d : positive) : Qc := Q2Qc (n # d).

Definition catalog : list movie :=
  [ Movie 10 "A" ["Action"]; Movie 11 "B" ["Drama"]; Movie 12 "C" ["Action"];
    Movie 13 "D" ["Comedy"]; Movie 14 "E" ["Drama"] ].

Definition similarity : list (list Qc) :=
  [ [q 1 1; q 1 2; q 3 10; q 0 1; q 1 10];
    [q 1 2; q 1 1; q 3 10; q 0 1; q 1 10];
    [q 3 10; q 3 10; q 1 1; q 0 1; q 1 10];
    [q 0 1; q 0 1; q 0 1; q 1 1; q 1 10];
    [q 1 10; q 1 10; q 1 10; q 1 10; q 1 1] ].

(** User 1 has a spread of predictions, user 2 the same one everywhere. *)
Definition preds_df : gmap Z (gmap Z Qc) :=
  {[ 1%Z := {[ 0%Z := q 2 1; 1%Z := q 3 1; 2%Z := q 2 1; 3%Z := q 5 1;
               4%Z := q 1 1 ]};
     2%Z := {[ 0%Z := q 2 1; 1%Z := q 2 1; 2%Z := q 2 1; 3%Z := q 2 1;
               4%Z := q 2 1 ]} ]}.

Definition no_answer : Z → option string := λ _, None.

Definition poster_url : Z → option string := λ _, Some "https://image.tmdb.org/t/p/w500/p.jpg".

(** No genre chosen in the sidebar. *)
Definition unfiltered : session := Session [] no_answer no_answer.

(** The sidebar holds the genre Action. *)
Definition action_only : session := Session ["Action"] no_answer no_answer.

(** No genre chosen, and the metadata service has a poster for every id. *)
Definition with_posters : session := Session [] poster_url no_answer.

(** A two-movie catalog and its similarity matrix. *)
Definition pair_catalog : list movie :=
  [ Movie 10 "A" ["Action"]; Movie 11 "B" ["Drama"] ].

Definition pair_similarity : list (list Qc) :=
  [ [q 1 1; q 3 10]; [q 3 10; q 1 1] ].

(** What of a result the examples compare: labels, titles and scores, a
    finite score by its numerator and denominator. *)
Definition show_score (x : fval) : option Q :=
  match x with Fin v => Some (this v) | _ => None end.

Definition show (r : result (list recommendation))
  : result (list (Z * string * option Q)) :=
  match r with
  | Ok rows =>
      Ok ((λ x, (rec_label x, rec_title x, show_score (rec_hybrid_score x)))
            <$> rows)
  | Raised e => Raised e
  end.

End Scenario.

(** ** Two sorting algorithms that meet the [SortKind] contract *)

Module Kinds.

Section insertion.
(** [before x y]: [x] is put in front of an entry [y] it meets. *)
Variable before : fval → fval → bool.

Fixpoint insert_by (p : Z * fval) (s : Series) : Series :=
  match s with
  | [] => [p]
  | q :: r => if before p.2 q.2 then p :: q :: r else q :: insert_by p r
  end.

Definition isort_by (s : Series) : Series := foldr insert_by [] s.
End insertion.

(** Equal scores keep their index order ([kind='stable']). *)
Definition stable_sort : Series → Series := isort_by score_geb.

(** Equal scores come out in reverse index order. *)
Definition reversing_sort : Series → Series :=
  isort_by (λ x y, negb (score_geb y x)).

End Kinds.

(** ** Loading the catalog ([load_movies], lines 28-37, and the sidebar's
    [all_genres], line 107)

    Strings are byte strings in UTF-8.  The separator ['|'] is one byte
    that occurs in no multi-byte character, and comparing byte strings
    lexicographically orders them as Python orders [str] values. *)

Module Loader.

(** A cell of a CSV column as [pd.read_csv] delivers it: NaN for an empty
    field, a [str], or a number when the column parsed as numeric. *)
Inductive cell : Type :=
  | Missing
  | Text (s : string)
  | Number.

Record csv_row : Type := CsvRow {
  csv_id : Z;
  csv_title : string;
  csv_tags : cell;
  csv_genres : cell
}.

(** The parsed file: which of the two optional columns it has, and its
    rows (the cells of an absent column are not looked at). *)
Record csv : Type := Csv {
  has_tags : bool;
  has_genres : bool;
  csv_rows : list csv_row
}.

(** The frame [load_movies] returns, or the AttributeError that
    [x.split('|')] raises on a number. *)
Inductive loaded : Type :=
  | Loaded (movies : list movie)
  | AttributeError.

(** [s.split(sep)] for a one-character separator *)
Fixpoint split (sep : ascii) (s : string) : list string :=
  match s with
  | EmptyString => [EmptyString]
  | String c r =>
      if decide (c = sep) then EmptyString :: split sep r
      else match split sep r with
           | h :: t => String c h :: t
           | [] => [String c EmptyString]
           end
  end.

Definition pipe : ascii := "|"%char.

(** [sep in s] *)
Fixpoint contains (sep : ascii) (s : string) : bool :=
  match s with
  | EmptyString => false
  | String c r => bool_decide (c = sep) || contains sep r
  end.

(** [lambda x: x.split('|') if pd.notna(x) else []]; [None] stands for the
    AttributeError. *)
Definition genres_of_cell (x : cell) : option (list string) :=
  match x with
  | Missing => Some []
  | Text s => Some (split pipe s)
  | Number => None
  end.

Definition with_genres (r : csv_row) (gs : list string) : movie :=
  {| id := csv_id r; title := csv_title r; genres_list := gs |}.

Definition load_movies (file : csv) : loaded :=
  let rows := csv_rows file in
  if has_tags file then
    match mapM (λ r, genres_of_cell (csv_tags r)) rows with
    | Some gss => Loaded (zip_with with_genres rows gss)
    | None => AttributeError
    end
  else if has_genres file then
    match mapM (λ r, genres_of_cell (csv_genres r)) rows with
    | Some gss => Loaded (zip_with with_genres rows gss)
    | None => AttributeError
    end
  else Loaded ((λ r, with_genres r []) <$> rows).

(** [sorted(set(g for gs in movies['genres_list'] for g in gs))] *)
Definition all_genres (movies : list movie) : list string :=
  merge_sort String.le (remove_dups (mjoin (genres_list <$> movies))).

End Loader.

(** ** The metadata lookups ([fetch_poster], [fetch_trailer],
    [fetch_movie_details], lines 49-87)

    Inside a [try] block a computation is an [option]: [None] means that
    some exception was raised, which the bare [except] catches whatever it
    is. *)

Module Metadata.

(** A value that [response.json()] returns.  An object lists its fields in
    order, each key once. *)
#[local] Unset Elimination Schemes.
Inductive json : Type :=
  | JNull
  | JBool (b : bool)
  | JNum (x : Qc)
  | JStr (s : string)
  | JArr (items : list json)
  | JObj (fields : list (string * json)).

(** [requests.get(url).json()]: the parsed body, or [None] when the request
    or the parsing raised. *)
Definition service : Type := string → option json.

(** Python truthiness *)
Definition truthy (v : json) : bool :=
  match v with
  | JNull => false
  | JBool b => b
  | JNum x => negb (bool_decide (x = 0%Qc))
  | JStr s => negb (bool_decide (s = EmptyString))
  | JArr items => negb (bool_decide (items = []))
  | JObj fields => negb (bool_decide (fields = []))
  end.

(** [v == 'literal'] *)
Definition is_str (v : json) (literal : string) : bool :=
  match v with
  | JStr s => bool_decide (s = literal)
  | _ => false
  end.

Definition field (fields : list (string * json)) (k : string) : option json :=
  (λ p, p.2.2) <$> list_find (λ p, p.1 = k) fields.

(** [d.get(k, dflt)]: AttributeError unless [d] is a dict. *)
Definition dict_get (d : json) (k : string) (dflt : json) : option json :=
  match d with
  | JObj fields => Some (default dflt (field fields k))
  | _ => None
  end.

(** [v[k]] for a string [k]: KeyError on a dict without [k], TypeError on
    anything that is not a dict. *)
Definition getitem (v : json) (k : string) : option json :=
  match v with
  | JObj fields => field fields k
  | _ => None
  end.

Definition is_continuation (c : ascii) : bool :=
  match c with
  | Ascii _ _ _ _ _ _ false true => true
  | _ => false
  end.

(** The characters of a [str], each with its continuation bytes. *)
Fixpoint characters (s : string) : list string :=
  match s with
  | EmptyString => []
  | String c r =>
      match characters r with
      | String c' h :: t =>
          if is_continuation c' then String c (String c' h) :: t
          else String c EmptyString :: String c' h :: t
      | _ => [String c EmptyString]
      end
  end.

(** [for x in v]: TypeError when [v] cannot be iterated. *)
Definition iterate (v : json) : option (list json) :=
  match v with
  | JArr items => Some items
  | JStr s => Some (JStr <$> characters s)
  | JObj fields => Some (JStr <$> fields.*1)
  | _ => None
  end.

Definition api_key : string := "8265bd1679663a7ea12ac168da84d2e8".

Definition movie_url (movie_id : Z) : string :=
  "https://api.themoviedb.org/3/movie/" +:+ pretty movie_id +:+
  "?api_key=" +:+ api_key +:+ "&language=en-US".

Definition videos_url (movie_id : Z) : string :=
  "https://api.themoviedb.org/3/movie/" +:+ pretty movie_id +:+
  "/videos?api_key=" +:+ api_key +:+ "&language=en-US".

Definition poster_prefix : string := "https://image.tmdb.org/t/p/w500/".
Definition youtube_prefix : string := "https://www.youtube.com/watch?v=".
Definition tmdb_prefix : string := "https://www.themoviedb.org/movie/".

(** What a [try] block leaves: a returned value, the end of the block
    without a [return], or an exception. *)
Definition after_try {A} (block : option (option A)) (fallback : A) : A :=
  match block with
  | Some (Some a) => a
  | _ => fallback
  end.

(** Lines 49-59. *)
Definition fetch_poster (get : service) (movie_id : Z) : option string :=
  after_try
    (data ← get (movie_url movie_id);
     poster_path ← dict_get data "poster_path" JNull;
     if truthy poster_path then
       match poster_path with
       | JStr p => Some (Some (Some (poster_prefix +:+ p)))
       | _ => None
       end
     else Some None)
    None.

(** A video the loop of [fetch_trailer] steps over: an object with a
    [type] that is not a YouTube trailer. *)
Definition passed_over (video : json) : Prop :=
  ∃ ty, getitem video "type" = Some ty ∧
    (is_str ty "Trailer" = false ∨
     ∃ site, getitem video "site" = Some site ∧ is_str site "YouTube" = false).

(** A YouTube trailer with its [key]. *)
Definition youtube_trailer (video key : json) : Prop :=
  ∃ ty site,
    getitem video "type" = Some ty ∧ is_str ty "Trailer" = true ∧
    getitem video "site" = Some site ∧ is_str site "YouTube" = true ∧
    getitem video "key" = Some key.

(** A video on which the loop raises: not an object, or without [type], or
    a trailer without [site], or a YouTube trailer without [key]. *)
Definition malformed (video : json) : Prop :=
  getitem video "type" = None ∨
  ∃ ty, getitem video "type" = Some ty ∧ is_str ty "Trailer" = true ∧
    (getitem video "site" = None ∨
     ∃ site, getitem video "site" = Some site ∧
             is_str site "YouTube" = true ∧ getitem video "key" = None).

Section trailer.
(** [f"{v}"]: Python's [str(v)], which is [v] itself on a [str]. *)
Variable str_of : json → string.

(** The loop of lines 67-69. *)
Fixpoint first_trailer (videos : list json) : option (option string) :=
  match videos with
  | [] => Some None
  | video :: rest =>
      ty ← getitem video "type";
      if is_str ty "Trailer" then
        site ← getitem video "site";
        if is_str site "YouTube" then
          key ← getitem video "key";
          Some (Some (youtube_prefix +:+ str_of key))
        else first_trailer rest
      else first_trailer rest
  end.

(** Lines 61-72. *)
Definition fetch_trailer (get : service) (movie_id : Z) : option string :=
  after_try
    (data ← get (videos_url movie_id);
     results ← dict_get data "results" (JArr []);
     videos ← iterate results;
     found ← first_trailer videos;
     Some (match found with
           | Some url => Some (Some url)
           | None => None
           end))
    None.
End trailer.

Record details : Type := Details {
  overview : json;
  genres : list json;
  homepage : json;
  release_date : json;
  rating : json
}.

Definition no_details : details :=
  {| overview := JStr ""; genres := []; homepage := JStr "";
     release_date := JStr ""; rating := JNum 0%Qc |}.

(** Lines 74-87. *)
Definition fetch_movie_details (get : service) (movie_id : Z) : details :=
  after_try
    (data ← get (movie_url movie_id);
     ov ← dict_get data "overview" (JStr "");
     gs ← dict_get data "genres" (JArr []);
     items ← iterate gs;
     names ← mapM (λ g, getitem g "name") items;
     hp ← dict_get data "homepage"
            (JStr (tmdb_prefix +:+ pretty movie_id));
     rd ← dict_get data "release_date" (JStr "");
     ra ← dict_get data "vote_average" (JNum 0%Qc);
     Some (Some {| overview := ov; genres := names; homepage := hp;
                   release_date := rd; rating := ra |}))
    no_details.

(** A formatter for the examples; it is Python's [str] on strings, the
    only values the examples format. *)
Definition text_of (v : json) : string :=
  match v with
  | JStr s => s
  | _ => EmptyString
  end.

(** The session of a run: the sidebar's selection and the two cached
    lookups over one service. *)
Definition session_of (selected : list string) (str_of : json → string)
    (get : service) : session :=
  Session selected (fetch_poster get) (fetch_trailer str_of get).

End Metadata.

(** ** The page ([trending_movies], [display_row] and the recommendation
    section, lines 143-179) *)

Module Ui.
Import Metadata.

(** A row of a frame handed to [display_row]. *)
Record shown_row : Type := ShownRow {
  row_title : string;
  row_poster : option string;
  row_trailer : option string;
  row_id : Z
}.

Inductive widget : Type :=
  | Markdown (text : string)
  | Image (url : string)
  | Caption (text : string).

(** What [display_row] leaves on the page: the widgets of each column, or an
    exception that escapes it. *)
Inductive rendering : Type :=
  | Rendered (columns : list (list widget))
  | Crashed.

(** [s[:n]]: the first [n] characters. *)
Fixpoint take_chars (n : nat) (s : string) : string :=
  match s with
  | EmptyString => EmptyString
  | String c r =>
      if is_continuation c then String c (take_chars n r)
      else match n with
           | 0 => EmptyString
           | S n' => String c (take_chars n' r)
           end
  end.

(** [len(s)] *)
Fixpoint char_length (s : string) : nat :=
  match s with
  | EmptyString => 0
  | String c r =>
      if is_continuation c then char_length r else S (char_length r)
  end.

Definition present (x : option string) : option string :=
  match x with
  | Some s => if decide (s = EmptyString) then None else Some s
  | None => None
  end.

(** The body of the loop of [display_row], lines 155-167; [None] is an
    exception. *)
Definition display_column (get : service) (r : shown_row)
  : option (list widget) :=
  match present (row_poster r) with
  | Some poster =>
      let heading :=
        match present (row_trailer r) with
        | Some trailer =>
            Markdown ("[**" +:+ row_title r +:+ "**](" +:+ trailer +:+ ")")
        | None => Markdown ("**" +:+ row_title r +:+ "**")
        end in
      let ov := overview (fetch_movie_details get (row_id r)) in
      if truthy ov then
        match ov with
        | JStr text =>
            Some [heading; Image poster;
                  Caption (take_chars 120 text +:+ "...")]
        | _ => None
        end
      else Some [heading; Image poster]
  | None => Some []
  end.

(** Lines 152-167; [st.columns(0)] raises. *)
Definition display_row (get : service) (df : list shown_row) : rendering :=
  match df with
  | [] => Crashed
  | _ :: _ =>
      match mapM (display_column get) df with
      | Some columns => Rendered columns
      | None => Crashed
      end
  end.

(** [df.sample(n)]: ValueError for a negative [n] or one above the number
    of rows; otherwise the rows at the positions the random generator
    draws. *)
Definition sample {A} (draw : list nat) (n : Z) (df : list A)
  : result (list A) :=
  if (n <? 0)%Z || (Z.of_nat (length df) <? n)%Z then Raised ValueError
  else Ok (omap (λ i, df !! i) draw).

(** What the generator may draw for [n] of [len] rows. *)
Definition valid_draw (draw : list nat) (n : Z) (len : nat) : Prop :=
  NoDup draw ∧ Forall (λ i, i < len) draw ∧ Z.of_nat (length draw) = n.

(** Lines 143-147. *)
Definition trending_movies (env : session) (draw : list nat)
    (movies_df : list movie) (top_n : Z) : result (list shown_row) :=
  match sample draw top_n movies_df with
  | Ok trending =>
      Ok ((λ m, {| row_title := title m;
                   row_poster := App.fetch_poster env (id m);
                   row_trailer := App.fetch_trailer env (id m);
                   row_id := id m |}) <$> trending)
  | Raised e => Raised e
  end.

Definition shown (r : recommendation) : shown_row :=
  {| row_title := rec_title r; row_poster := rec_poster r;
     row_trailer := rec_trailer r; row_id := rec_id r |}.

Inductive page_section : Type :=
  | Warning (text : string)
  | Shown (columns : list (list widget))
  | Failed.

(** Lines 173-179, once the button is pressed. *)
Definition show_recommendations `{SortKind} (env : session) (get : service)
    (selected_user : Z) (selected_movie : string) (movies : list movie)
    (preds_df : gmap Z (gmap Z Qc)) (similarity : list (list Qc)) : page_section :=
  match hybrid_recommend env selected_user selected_movie movies preds_df
          similarity 10 (Q2Qc (1 # 10)) with
  | Raised _ => Failed
  | Ok [] => Warning "No recommendations found!"
  | Ok recs =>
      match display_row get (shown <$> recs) with
      | Rendered columns => Shown columns
      | Crashed => Failed
      end
  end.

End Ui.

(** ** Facts about the order on scores *)

Section order_facts.
Local Open Scope Qc_scope.

Lemma Qcleb_le (x y : Qc) : Qcleb x y = true ↔ x ≤ y.
Proof. unfold Qcleb, Qcle. apply Qle_bool_iff. Qed.


Lemma Qcleb_total (x y : Qc) : Qcleb x y = true ∨ Qcleb y x = true.
Proof. rewrite !Qcleb_le. destruct (Qclt_le_dec x y); auto using Qclt_le_weak. Qed.







Lemma list_min_is_Some (l : list Qc) : l ≠ [] → is_Some (list_min l).
Proof. destruct l; [done|]. by eexists. Qed.

Lemma list_max_is_Some (l : list Qc) : l ≠ [] → is_Some (list_max l).
Proof. destruct l; [done|]. by eexists. Qed.

Lemma fleb_trans (x y z : fval) :
  fleb x y = true → fleb y z = true → fleb x z = true.
Proof.
  destruct x as [a|[]|], y as [b|[]|], z as [c|[]|]; simpl; try done.
  rewrite !Qcleb_le. apply Qcle_trans.
Qed.

Lemma fleb_total (x y : fval) :
  is_nan x = false → is_nan y = false → fleb x y = true ∨ fleb y x = true.
Proof.
  destruct x as [a|[]|], y as [b|[]|]; simpl; try done; auto.
  intros _ _. apply Qcleb_total.
Qed.

Lemma score_geb_trans (x y z : fval) :
  score_geb x y = true → score_geb y z = true → score_geb x z = true.
Proof.
  unfold score_geb. destruct (is_nan z) eqn:Hz; [done|]. simpl.
  destruct (is_nan y) eqn:Hy; simpl; [done|].
  destruct (is_nan x) eqn:Hx; simpl; [done|].
  intros. eapply fleb_trans; eauto.
Qed.

Lemma score_geb_total (x y : fval) :
  score_geb x y = true ∨ score_geb y x = true.
Proof.
  unfold score_geb. destruct (is_nan y) eqn:Hy; [by left|].
  destruct (is_nan x) eqn:Hx; [by right|]. simpl.
  destruct (fleb_total x y Hx Hy); auto.
Qed.


#[global] Instance desc_trans : Transitive desc.
Proof. intros x y z. apply score_geb_trans. Qed.

End order_facts.

(** ** The two insertion sorts meet the contract *)

Section insertion_facts.
Variable before : fval → fval → bool.
Hypothesis before_ge : ∀ x y, before x y = true → score_geb x y = true.
Hypothesis before_not : ∀ x y, before x y = false → score_geb y x = true.

Lemma insert_by_perm (p : Z * fval) (s : Series) :
  Kinds.insert_by before p s ≡ₚ p :: s.
Proof.
  induction s as [|q r IH]; simpl; [done|].
  destruct (before p.2 q.2); [done|]. rewrite IH. apply Permutation_swap.
Qed.

Lemma isort_by_perm (s : Series) : Kinds.isort_by before s ≡ₚ s.
Proof.
  induction s as [|p s IH]; simpl; [done|].
  rewrite insert_by_perm. by f_equiv.
Qed.

Lemma insert_by_sorted (p : Z * fval) (s : Series) :
  StronglySorted desc s → StronglySorted desc (Kinds.insert_by before p s).
Proof.
  induction 1 as [|q r Hr IH Hq]; simpl.
  - repeat constructor.
  - destruct (before p.2 q.2) eqn:E.
    + apply before_ge in E. constructor; [by constructor|].
      constructor; [done|].
      eapply Forall_impl; [exact Hq|]. intros z Hz. by trans q.
    + apply before_not in E. constructor; [done|].
      rewrite insert_by_perm. by constructor.
Qed.

Lemma isort_by_sorted (s : Series) : StronglySorted desc (Kinds.isort_by before s).
Proof.
  induction s as [|p s IH]; simpl; [constructor|]. by apply insert_by_sorted.
Qed.
End insertion_facts.

Lemma stable_sort_perm (s : Series) : Kinds.stable_sort s ≡ₚ s.
Proof. by apply isort_by_perm. Qed.

Lemma stable_sort_sorted (s : Series) :
  Forall (λ p, is_nan p.2 = false) s → StronglySorted desc (Kinds.stable_sort s).
Proof.
  intros _. apply isort_by_sorted; [done|].
  intros x y E. destruct (score_geb_total x y); congruence.
Qed.

Lemma reversing_sort_perm (s : Series) : Kinds.reversing_sort s ≡ₚ s.
Proof. by apply isort_by_perm. Qed.

Lemma reversing_sort_sorted (s : Series) :
  Forall (λ p, is_nan p.2 = false) s →
  StronglySorted desc (Kinds.reversing_sort s).
Proof.
  intros _. apply isort_by_sorted.
  - intros x y E%negb_true_iff. destruct (score_geb_total x y); congruence.
  - intros x y E%negb_false_iff. done.
Qed.

Definition stable_kind : SortKind :=
  {| argsort_desc := Kinds.stable_sort;
     argsort_desc_perm := stable_sort_perm;
     argsort_desc_sorted := stable_sort_sorted |}.

Definition reversing_kind : SortKind :=
  {| argsort_desc := Kinds.reversing_sort;
     argsort_desc_perm := reversing_sort_perm;
     argsort_desc_sorted := reversing_sort_sorted |}.

(** ** Min-max scaling *)

Section scaling_facts.
Local Open Scope Qc_scope.







(** A Series of finite numbers. *)
Lemma elem_of_values (s : gmap Z Qc) (x : Qc) :
  x ∈ values s ↔ ∃ k, s !! k = Some x.
Proof.
  unfold values. rewrite list_elem_of_fmap. split.
  - intros ([k y] & -> & Hk). exists k. by apply elem_of_map_to_list in Hk.
  - intros (k & Hk). exists (k, x). split; [done|]. by apply elem_of_map_to_list.
Qed.



Lemma series_min_max_is_Fin (s : gmap Z Qc) (k : Z) (x : Qc) :
  s !! k = Some x → ∃ lo hi, series_min s = Fin lo ∧ series_max s = Fin hi.
Proof.
  intros Hk. assert (values s ≠ []) as Hne.
  { intros E. assert (x ∈ values s) as Hx by (apply elem_of_values; eauto).
    rewrite E in Hx. by apply elem_of_nil in Hx. }
  destruct (list_min_is_Some _ Hne) as [lo Hlo].
  destruct (list_max_is_Some _ Hne) as [hi Hhi].
  exists lo, hi. unfold series_min, series_max. by rewrite Hlo, Hhi.
Qed.

Lemma ndarray_min_max_Ok (a : list Qc) (lo hi : Qc) :
  list_min a = Some lo → list_max a = Some hi →
  ndarray_min_max a = Ok ((λ x, min_max_scale (Fin lo) (Fin hi) (Fin x)) <$> a).
Proof.
  intros Hlo Hhi. unfold ndarray_min_max, ndarray_min, ndarray_max.
  by rewrite Hlo, Hhi.
Qed.

End scaling_facts.

(** ** Frames, labels and lookups *)

Section frame_facts.

Lemma range_index_lookup (ms : list movie) (i : nat) :
  range_index ms !! i = (λ m, (Z.of_nat i, m)) <$> ms !! i.
Proof. unfold range_index. by rewrite list_lookup_imap. Qed.

Lemma elem_of_range_index (ms : list movie) (l : Z) (m : movie) :
  (l, m) ∈ range_index ms ↔ ∃ i, l = Z.of_nat i ∧ ms !! i = Some m.
Proof.
  rewrite list_elem_of_lookup. split.
  - intros (i & Hi). rewrite range_index_lookup in Hi.
    destruct (ms !! i) eqn:E; simplify_eq/=. eauto.
  - intros (i & -> & Hi). exists i. by rewrite range_index_lookup, Hi.
Qed.

Lemma length_range_index (ms : list movie) :
  length (range_index ms) = length ms.
Proof. apply length_imap. Qed.

Lemma length_index (df : DataFrame) : length (index df) = length df.
Proof. apply length_fmap. Qed.

Lemma index_range_index_NoDup (ms : list movie) :
  NoDup (index (range_index ms)).
Proof.
  apply NoDup_alt. intros i j x. unfold index.
  rewrite !list_lookup_fmap, !range_index_lookup.
  destruct (ms !! i), (ms !! j); simpl; intros [= <-] [= ?]; lia.
Qed.

Lemma filtered_movies_sublist (sel : list string) (df : DataFrame) :
  filtered_movies sel df `sublist_of` df.
Proof. destruct sel; simpl; [done|]. apply sublist_filter. Qed.

Lemma filtered_movies_NoDup (sel : list string) (ms : list movie) :
  NoDup (index (filtered_movies sel (range_index ms))).
Proof.
  apply (sublist_NoDup _ (index (range_index ms)));
    [apply index_range_index_NoDup|].
  unfold index. apply fmap_sublist, filtered_movies_sublist.
Qed.

Lemma elem_of_titles (df : DataFrame) (t : string) :
  t ∈ titles df ↔ ∃ l m, (l, m) ∈ df ∧ title m = t.
Proof.
  unfold titles. rewrite list_elem_of_fmap. split.
  - intros ([l m] & -> & Hin). eauto.
  - intros (l & m & Hin & <-). by exists (l, m).
Qed.

Lemma title_index_Ok (df : DataFrame) (t : string) :
  t ∈ titles df → ∃ l m, title_index df t = Ok l ∧ (l, m) ∈ df ∧ title m = t.
Proof.
  intros (l & m & Hin & Ht)%elem_of_titles. unfold title_index.
  assert ((l, m) ∈ filter (λ r, title r.2 = t) df) as Hf
    by by apply list_elem_of_filter.
  destruct (filter (λ r, title r.2 = t) df) as [|[l' m'] r] eqn:E.
  - by apply elem_of_nil in Hf.
  - exists l', m'. split; [done|].
    assert ((l', m') ∈ filter (λ r, title r.2 = t) df) as Hf'
      by (rewrite E; left).
    by apply list_elem_of_filter in Hf' as [? ?].
Qed.

Lemma ndarray_row_Ok {A} (a : list A) (i : nat) (x : A) :
  a !! i = Some x → ndarray_row a (Z.of_nat i) = Ok x.
Proof.
  intros Hi. pose proof (lookup_lt_Some _ _ _ Hi) as Hlt.
  unfold ndarray_row.
  destruct (Z.ltb_spec (Z.of_nat i) 0); [lia|].
  destruct (Z.leb_spec 0 (Z.of_nat i)); [|lia].
  destruct (Z.ltb_spec (Z.of_nat i) (Z.of_nat (length a))); [|lia].
  simpl. by rewrite Nat2Z.id, Hi.
Qed.

Lemma fst_unique {A} (x : list (Z * A)) (l : Z) (a b : A) :
  NoDup x.*1 → (l, a) ∈ x → (l, b) ∈ x → a = b.
Proof.
  intros Hnd (i & Hi)%list_elem_of_lookup (j & Hj)%list_elem_of_lookup.
  assert (i = j) as ->; [|congruence].
  eapply NoDup_alt; [exact Hnd| |]; rewrite list_lookup_fmap.
  - by rewrite Hi.
  - by rewrite Hj.
Qed.

Lemma loc_Ok {A} (x : list (Z * A)) (l : Z) (a : A) :
  NoDup x.*1 → (l, a) ∈ x → loc x l = Ok a.
Proof.
  intros Hnd Hin. unfold loc.
  destruct (list_find (λ p, p.1 = l) x) as [[i [l' a']]|] eqn:E.
  - apply list_find_Some in E as (Hi & Hl & _). simpl in Hl. subst l'.
    f_equal. simpl. eapply fst_unique; [done| |done].
    apply list_elem_of_lookup; eauto.
  - apply list_find_None in E. rewrite Forall_forall in E.
    by destruct (E _ Hin).
Qed.

Lemma loc_list_cons {A} (x : list (Z * A)) (k : Z) (ks : list Z) :
  loc_list x (k :: ks) =
    a ← loc x k; r ← loc_list x ks; mret ((k, a) :: r).
Proof. done. Qed.

Lemma loc_list_Ok {A} (x l : list (Z * A)) :
  NoDup x.*1 → l ⊆ x → loc_list x l.*1 = Ok l.
Proof.
  intros Hnd. induction l as [|[k a] l IH]; intros Hsub; [done|].
  rewrite fmap_cons, loc_list_cons. cbn [fst].
  rewrite (loc_Ok x k a) by (done || apply Hsub; left).
  rewrite IH; [done|]. intros p Hp. apply Hsub. by right.
Qed.

Lemma loc_list_total {A} (x : list (Z * A)) (labels : list Z) :
  NoDup x.*1 → labels ⊆ x.*1 →
  ∃ l, loc_list x labels = Ok l ∧ l.*1 = labels ∧ l ⊆ x.
Proof.
  intros Hnd. induction labels as [|k ks IH]; intros Hsub.
  - exists []. split_and!; [done..|]. intros p Hp. by apply elem_of_nil in Hp.
  - destruct IH as (l & Hl & Hfst & Hin).
    { intros p Hp. apply Hsub. by right. }
    assert (k ∈ x.*1) as ([k' a] & -> & Hk)%list_elem_of_fmap
      by (apply Hsub; left).
    exists ((k', a) :: l). cbn [fst]. rewrite loc_list_cons.
    rewrite (loc_Ok x k' a) by done. rewrite Hl.
    split_and!; [done|by rewrite fmap_cons, Hfst|].
    intros p [->|Hp]%elem_of_cons; auto.
Qed.

End frame_facts.

(** ** Sorting, truncation and blending *)

Section ranking_facts.
Context `{K : SortKind}.

Lemma sort_values_perm (s : Series) : sort_values s ≡ₚ s.
Proof.
  unfold sort_values. rewrite argsort_desc_perm.
  rewrite <- (filter_app_complement (λ p, is_nan p.2 = false) s) at 3.
  f_equiv. apply reflexive_eq, list_filter_iff.
  intros p. destruct (is_nan p.2); naive_solver.
Qed.

Lemma all_nan_sorted (s : Series) :
  Forall (λ p, is_nan p.2 = true) s → StronglySorted desc s.
Proof.
  induction 1 as [|p s Hp Hs IH]; constructor; [done|].
  eapply Forall_impl; [exact Hs|]. intros q Hq. unfold desc, score_geb.
  by rewrite Hq.
Qed.

Lemma sort_values_sorted (s : Series) : StronglySorted desc (sort_values s).
Proof.
  unfold sort_values. apply StronglySorted_app_2.
  - intros p q _ [Hq _]%list_elem_of_filter. unfold desc, score_geb.
    by rewrite Hq.
  - apply argsort_desc_sorted. apply Forall_forall.
    by intros p [Hp _]%list_elem_of_filter.
  - apply all_nan_sorted. apply Forall_forall.
    by intros p [Hp _]%list_elem_of_filter.
Qed.

Lemma head_take {A} (n : Z) (l : list A) : ∃ k, head n l = take k l.
Proof. unfold head. destruct (0 <=? n)%Z; eauto. Qed.

Lemma head_nonneg {A} (n : Z) (l : list A) :
  (0 ≤ n)%Z → head n l = take (Z.to_nat n) l.
Proof. intros Hn. unfold head. by destruct (Z.leb_spec 0 n); [|lia]. Qed.

Lemma hybrid_scores_lookup (alpha : Qc) (cf content : Series) (i : nat)
    (l l' : Z) (c d : fval) :
  cf !! i = Some (l, c) → content !! i = Some (l', d) →
  hybrid_scores alpha cf content !! i =
    Some (l, fadd (fmul (Fin alpha) c) (fmul (Fin (1 - alpha)%Qc) d)).
Proof.
  intros Hc Hd. unfold hybrid_scores, series_add, series_scale.
  by rewrite lookup_zip_with, !list_lookup_fmap, Hc, Hd.
Qed.

Lemma hybrid_scores_length (alpha : Qc) (cf content : Series) :
  length cf = length content →
  length (hybrid_scores alpha cf content) = length cf.
Proof.
  intros E. unfold hybrid_scores, series_add, series_scale.
  rewrite length_zip_with, !length_fmap. lia.
Qed.

Lemma hybrid_scores_fst (alpha : Qc) (cf content : Series) :
  length cf = length content → (hybrid_scores alpha cf content).*1 = cf.*1.
Proof.
  intros E. apply list_eq. intros i. rewrite !list_lookup_fmap.
  destruct (cf !! i) as [[l c]|] eqn:Hc.
  - destruct (content !! i) as [[l' d]|] eqn:Hd.
    + by rewrite (hybrid_scores_lookup _ _ _ _ _ _ _ _ Hc Hd).
    + apply lookup_lt_Some in Hc. apply lookup_ge_None in Hd. lia.
  - apply lookup_ge_None in Hc. rewrite lookup_ge_None_2; [done|].
    by rewrite hybrid_scores_length.
Qed.

Lemma cf_norm_fst (row : gmap Z Qc) (cands : list Z) :
  (cf_norm row cands).*1 = cands.
Proof.
  unfold cf_norm, reindex. rewrite <- list_fmap_compose. apply list_fmap_id.
Qed.

Lemma cf_norm_lookup (row : gmap Z Qc) (cands : list Z) (i : nat) (l : Z) :
  cands !! i = Some l →
  cf_norm row cands !! i =
    Some (l, match row !! l with
             | Some x => min_max_scale (series_min row) (series_max row) (Fin x)
             | None => Fin 0
             end).
Proof.
  intros Hi. unfold cf_norm, reindex, series_min_max.
  rewrite list_lookup_fmap, Hi. simpl. rewrite lookup_fmap.
  by destruct (row !! l).
Qed.

End ranking_facts.

(** ** What [hybrid_recommend] returns when the filter keeps every row *)

Section recommend_facts.
Context `{K : SortKind}.

Lemma zip_with_enrich (env : session) (rows : DataFrame) (scores : Series) :
  rows.*1 = scores.*1 →
  label_score <$> zip_with (enrich env) rows scores = scores ∧
  Forall (λ r, ∃ m, (rec_label r, m) ∈ rows ∧
               r = enrich env (rec_label r, m) (label_score r))
    (zip_with (enrich env) rows scores).
Proof.
  revert scores.
  induction rows as [|[l m] rows IH]; intros [|[l' s] scores] E;
    simplify_eq/=; [done|].
  destruct (IH scores) as [IH1 IH2]; [done|]. split.
  - by rewrite IH1.
  - constructor.
    + exists m. split; [left|done].
    + eapply Forall_impl; [exact IH2|]. intros r (m' & Hm' & Hr).
      exists m'. split; [by right|done].
Qed.

Lemma head_subseteq {A} (n : Z) (l : list A) : head n l ⊆ l.
Proof. destruct (head_take n l) as [k ->]. apply subseteq_take. Qed.

Lemma hybrid_recommend_Ok (env : session) (user : Z) (t : string)
    (ms : list movie) (preds : gmap Z (gmap Z Qc)) (sim : list (list Qc))
    (top_n : Z) (alpha : Qc) (row : gmap Z Qc) :
  filtered_movies (selected_genres env) (range_index ms) = range_index ms →
  t ∈ titles (range_index ms) →
  preds !! user = Some row →
  length sim = length ms →
  Forall (λ r, length r = length ms) sim →
  ∃ idx srow lo hi content hybrid rows,
    title_index (range_index ms) t = Ok idx ∧
    ndarray_row sim idx = Ok srow ∧
    length srow = length ms ∧
    list_min srow = Some lo ∧ list_max srow = Some hi ∧
    content = zip (index (range_index ms))
                ((λ x, min_max_scale (Fin lo) (Fin hi) (Fin x)) <$> srow) ∧
    content_norm sim idx (index (range_index ms)) = Ok content ∧
    hybrid = hybrid_scores alpha (cf_norm row (index (range_index ms))) content ∧
    hybrid.*1 = index (range_index ms) ∧
    hybrid_recommend env user t ms preds sim top_n alpha = Ok rows ∧
    label_score <$> rows = head top_n (sort_values hybrid) ∧
    Forall (λ r, ∃ m, (rec_label r, m) ∈ range_index ms ∧
                 r = enrich env (rec_label r, m) (label_score r)) rows.
Proof.
  intros Hw Ht Hp Hlen Hrows.
  destruct (title_index_Ok _ _ Ht) as (idx & m & Hidx & Hin & Htitle).
  apply elem_of_range_index in Hin as (i & -> & Hi).
  pose proof (lookup_lt_Some _ _ _ Hi) as Hlt.
  destruct (lookup_lt_is_Some_2 sim i) as [srow Hs]; [lia|].
  pose proof (ndarray_row_Ok _ _ _ Hs) as Hrow.
  assert (length srow = length ms) as Hsl
    by (rewrite Forall_lookup in Hrows; eauto).
  assert (srow ≠ []) as Hne by (intros ->; simpl in Hsl; lia).
  destruct (list_min_is_Some _ Hne) as [lo Hlo].
  destruct (list_max_is_Some _ Hne) as [hi Hhi].
  set (content := zip (index (range_index ms))
         ((λ x, min_max_scale (Fin lo) (Fin hi) (Fin x)) <$> srow)).
  set (hybrid := hybrid_scores alpha (cf_norm row (index (range_index ms)))
         content).
  assert (content_norm sim (Z.of_nat i) (index (range_index ms)) = Ok content)
    as Hcontent.
  { unfold content_norm. rewrite Hrow. simpl.
    rewrite (ndarray_min_max_Ok _ _ _ Hlo Hhi). simpl. unfold mk_series.
    rewrite decide_True; [done|].
    by rewrite length_fmap, length_index, length_range_index. }
  assert (length content = length ms) as Hcl.
  { unfold content. rewrite length_zip, length_fmap, length_index,
      length_range_index. lia. }
  assert (hybrid.*1 = index (range_index ms)) as Hfst.
  { unfold hybrid. rewrite hybrid_scores_fst; [apply cf_norm_fst|].
    rewrite <- (length_fmap fst (cf_norm _ _)), cf_norm_fst.
    by rewrite length_index, length_range_index. }
  pose proof (index_range_index_NoDup ms) as Hnd.
  assert (head top_n (sort_values hybrid) ⊆ hybrid) as Hsub.
  { intros p Hp'%head_subseteq. by rewrite sort_values_perm in Hp'. }
  destruct (loc_list_total (range_index ms)
              (head top_n (sort_values hybrid)).*1) as (l & Hl & Hlf & Hlin).
  { done. }
  { intros k (p & -> & Hk)%list_elem_of_fmap. fold (index (range_index ms)).
    rewrite <- Hfst. apply list_elem_of_fmap. exists p. auto. }
  destruct (zip_with_enrich env l (head top_n (sort_values hybrid)) Hlf)
    as [Hz1 Hz2].
  exists (Z.of_nat i), srow, lo, hi, content, hybrid,
    (zip_with (enrich env) l (head top_n (sort_values hybrid))).
  split_and!; try done.
  - unfold hybrid_recommend. rewrite Hw, decide_True by done.
    rewrite Hp. simpl. rewrite Hidx. simpl. rewrite Hcontent. simpl.
    fold hybrid. unfold top_idx. rewrite Hl. simpl.
    rewrite loc_list_Ok; [done| |done]. by rewrite Hfst.
  - eapply Forall_impl; [exact Hz2|]. intros r (m' & Hm' & Hr).
    exists m'. split; [by apply Hlin|done].
Qed.

End recommend_facts.

(** ** Claims about the normalisation (C1, C2) *)

Ltac by_evaluation :=
  first
    [ apply (bool_decide_eq_true_1 _); vm_compute; reflexivity
    | apply (bool_decide_eq_false_1 _); vm_compute; reflexivity ].

(** The two NaN rules of the model, checked on binary64 floats themselves:
    the quotient the normalisation forms for a constant vector,
    [(2 - 2) / (2 - 2)], is a NaN, and a NaN survives the blend,
    [0.125 * nan + 0.875 * 1]. *)
Module Binary64.
Import PrimFloat.

Lemma zero_over_zero_is_nan :
  is_nan ((2 - 2) / (2 - 2))%float = true
  ∧ is_nan (0.125 * ((2 - 2) / (2 - 2)) + 0.875 * 1)%float = true.
Proof. split; reflexivity. Qed.

End Binary64.








(** ** Claims about the control flow (C9, C10, C3, C4) *)

Lemma content_norm_Ok (sim : list (list Qc)) (i : nat) (srow : list Qc)
    (lo hi : Qc) (cands : list Z) :
  sim !! i = Some srow → list_min srow = Some lo → list_max srow = Some hi →
  content_norm sim (Z.of_nat i) cands =
    mk_series ((λ x, min_max_scale (Fin lo) (Fin hi) (Fin x)) <$> srow) cands.
Proof.
  intros Hs Hlo Hhi. unfold content_norm.
  rewrite (ndarray_row_Ok _ _ _ Hs). simpl.
  by rewrite (ndarray_min_max_Ok _ _ _ Hlo Hhi).
Qed.

Lemma seed_row (df : DataFrame) (t : string) (ms : list movie)
    (sim : list (list Qc)) :
  df ⊆ range_index ms →
  t ∈ titles df →
  length sim = length ms →
  Forall (λ r, length r = length ms) sim →
  ∃ i seed srow lo hi,
    title_index df t = Ok (Z.of_nat i) ∧ ms !! i = Some seed ∧ title seed = t ∧
    sim !! i = Some srow ∧ length srow = length ms ∧
    list_min srow = Some lo ∧ list_max srow = Some hi.
Proof.
  intros Hsub Ht Hlen Hrows.
  destruct (title_index_Ok _ _ Ht) as (idx & m & Hidx & Hin & Htitle).
  apply Hsub, elem_of_range_index in Hin as (i & -> & Hi).
  pose proof (lookup_lt_Some _ _ _ Hi) as Hlt.
  destruct (lookup_lt_is_Some_2 sim i) as [srow Hs]; [lia|].
  assert (length srow = length ms) as Hsl
    by (rewrite Forall_lookup in Hrows; eauto).
  assert (srow ≠ []) as Hne by (intros ->; simpl in Hsl; lia).
  destruct (list_min_is_Some _ Hne) as [lo Hlo].
  destruct (list_max_is_Some _ Hne) as [hi Hhi].
  exists i, m, srow, lo, hi. split_and!; done.
Qed.

Lemma filtered_movies_subseteq (sel : list string) (df : DataFrame) :
  filtered_movies sel df ⊆ df.
Proof. apply sublist_subseteq, filtered_movies_sublist. Qed.

(** C9.  Whenever the seed title is not among the titles of the candidate
    rows, [hybrid_recommend] returns the empty frame: lines 119-120 return
    before the user's row or the similarity matrix is touched, so nothing
    can be raised, whatever the other arguments are. *)
Theorem C9_seed_outside_candidates `{K : SortKind} (env : session) (user : Z)
    (t : string) (ms : list movie) (preds : gmap Z (gmap Z Qc))
    (sim : list (list Qc)) (top_n : Z) (alpha : Qc) :
  t ∉ titles (filtered_movies (selected_genres env) (range_index ms)) →
  hybrid_recommend env user t ms preds sim top_n alpha = Ok [].
Proof. intros Ht. unfold hybrid_recommend. by rewrite decide_False. Qed.

Lemma C9_seed_outside_candidates_witness :
  index (filtered_movies (selected_genres Scenario.action_only)
           (range_index Scenario.catalog)) = [0%Z; 2%Z]
  ∧ hybrid_recommend (H := stable_kind) Scenario.action_only 1 "B"
      Scenario.catalog Scenario.preds_df Scenario.similarity 10
      (Scenario.q 1 10) = Ok [].
Proof.
  split; [reflexivity|].
  apply (C9_seed_outside_candidates (K := stable_kind)). by_evaluation.
Defined.

(** C10.  When the genre filter leaves fewer rows than the catalog has and
    the seed title is still among them (which needs a non-empty filter),
    and the similarity matrix has the catalog's dimension,
    [hybrid_recommend] raises: line 129 wraps the normalised similarity
    row, as long as the catalog, in a Series over the shorter filtered
    index, which is a ValueError.  For a user missing from the prediction
    table the KeyError of line 122 comes first. *)
Theorem C10_strict_filter_raises `{K : SortKind} (env : session) (user : Z)
    (t : string) (ms : list movie) (preds : gmap Z (gmap Z Qc))
    (sim : list (list Qc)) (top_n : Z) (alpha : Qc) :
  length (filtered_movies (selected_genres env) (range_index ms)) < length ms →
  t ∈ titles (filtered_movies (selected_genres env) (range_index ms)) →
  length sim = length ms →
  Forall (λ r, length r = length ms) sim →
  selected_genres env ≠ []
  ∧ hybrid_recommend env user t ms preds sim top_n alpha =
      Raised (match preds !! user with
              | Some _ => ValueError
              | None => KeyError
              end).
Proof.
  intros Hlt Ht Hlen Hrows. split.
  { intros E. rewrite E in Hlt. simpl in Hlt.
    rewrite length_range_index in Hlt. lia. }
  unfold hybrid_recommend. rewrite decide_True by done.
  destruct (preds !! user) as [row|]; [|done]. simpl.
  destruct (seed_row _ t ms sim (filtered_movies_subseteq _ _) Ht Hlen Hrows)
    as (i & seed & srow & lo & hi & Hidx & _ & _ & Hs & Hsl & Hlo & Hhi).
  rewrite Hidx. simpl. rewrite (content_norm_Ok _ _ _ _ _ _ Hs Hlo Hhi).
  unfold mk_series. rewrite decide_False; [done|].
  rewrite length_fmap, length_index. lia.
Qed.

Lemma C10_strict_filter_raises_witness :
  selected_genres Scenario.action_only ≠ []
  ∧ hybrid_recommend (H := stable_kind) Scenario.action_only 1 "A"
      Scenario.catalog Scenario.preds_df Scenario.similarity 10
      (Scenario.q 1 10) =
    Raised (match Scenario.preds_df !! 1%Z with
            | Some _ => ValueError
            | None => KeyError
            end).
Proof.
  apply (C10_strict_filter_raises (K := stable_kind)).
  - vm_compute. lia.
  - by_evaluation.
  - reflexivity.
  - by repeat constructor.
Defined.




(** C4, as stated, fails on the source.  User 7 is missing from the
    prediction table.  With the filter Action and the seed title B, which
    the filter removes, lines 119-120 return the empty frame before the
    table is read: an empty list, silently.  Without a filter,
    [preds_df.loc[user_id]] on line 122 raises a KeyError that nothing in
    the function catches. *)
Lemma C4_unknown_user_empty_or_raised :
  Scenario.preds_df !! 7%Z = None
  ∧ hybrid_recommend (H := stable_kind) Scenario.action_only 7 "B"
      Scenario.catalog Scenario.preds_df Scenario.similarity 10
      (Scenario.q 1 10) = Ok []
  ∧ hybrid_recommend (H := stable_kind) Scenario.unfiltered 7 "B"
      Scenario.catalog Scenario.preds_df Scenario.similarity 10
      (Scenario.q 1 10) = Raised KeyError.
Proof. split_and!; by vm_compute. Qed.

(** C4, amended.  For a user missing from the prediction table,
    [hybrid_recommend] raises a KeyError when the seed title is among the
    candidate rows, and returns the empty frame when it is not. *)
Theorem C4_unknown_user `{K : SortKind} (env : session) (user : Z)
    (t : string) (ms : list movie) (preds : gmap Z (gmap Z Qc))
    (sim : list (list Qc)) (top_n : Z) (alpha : Qc) :
  preds !! user = None →
  hybrid_recommend env user t ms preds sim top_n alpha =
    if decide (t ∈ titles (filtered_movies (selected_genres env)
                             (range_index ms)))
    then Raised KeyError else Ok [].
Proof.
  intros Hu. unfold hybrid_recommend. case_decide; [|done]. by rewrite Hu.
Qed.

Lemma C4_unknown_user_witness :
  hybrid_recommend (H := stable_kind) Scenario.unfiltered 7 "B"
      Scenario.catalog Scenario.preds_df Scenario.similarity 10
      (Scenario.q 1 10) =
    if decide ("B" ∈ titles (filtered_movies
                               (selected_genres Scenario.unfiltered)
                               (range_index Scenario.catalog)))
    then Raised KeyError else Ok [].
Proof.
  apply (C4_unknown_user (K := stable_kind)). reflexivity.
Defined.

(** ** Claims about the returned list (C5, C6, C7) *)

Lemma ranked_zip_with_enrich (env1 env2 : session) (rows : DataFrame)
    (scores : Series) :
  ranked <$> zip_with (enrich env1) rows scores =
  ranked <$> zip_with (enrich env2) rows scores.
Proof.
  revert scores. induction rows as [|r rows IH]; intros [|s scores]; try done.
  simpl. by rewrite IH.
Qed.

Lemma enriched_zip_with_enrich (env : session) (rows : DataFrame)
    (scores : Series) :
  Forall (λ r, rec_poster r = fetch_poster env (rec_id r) ∧
               rec_trailer r = fetch_trailer env (rec_id r))
    (zip_with (enrich env) rows scores).
Proof.
  revert scores. induction rows as [|r rows IH]; intros [|s scores];
    simpl; try constructor; auto.
Qed.

Lemma StronglySorted_fmap_inv {A B} (f : A → B) (R : relation B) (l : list A) :
  StronglySorted R (f <$> l) → StronglySorted (λ x y, R (f x) (f y)) l.
Proof.
  induction l as [|x l IH]; [constructor|].
  rewrite fmap_cons. intros [Hx Hl]%StronglySorted_cons.
  constructor; [auto|]. rewrite Forall_forall in Hx. apply Forall_forall.
  intros y Hy. apply Hx, list_elem_of_fmap. eauto.
Qed.

Lemma StronglySorted_take {A} (R : relation A) (k : nat) (l : list A) :
  StronglySorted R l → StronglySorted R (take k l).
Proof.
  intros Hl. rewrite <- (take_drop k l) in Hl.
  by apply StronglySorted_app_1_l in Hl.
Qed.

(** C5, as stated, fails on the source.  [hybrid_recommend] has no genres
    parameter: it reads the module-level [selected_genres], and it calls
    [fetch_poster] and [fetch_trailer] for every row it returns (lines
    136-137).  With the same arguments, the call returns five rows when no
    genre is chosen and the empty frame when Action is; and the posters of
    the returned rows are whatever the metadata service answers. *)
Lemma C5_depends_on_session :
  Scenario.show
    (hybrid_recommend (H := stable_kind) Scenario.unfiltered 1 "B"
       Scenario.catalog Scenario.preds_df Scenario.similarity 2
       (Scenario.q 1 10))
    = Ok [(1%Z, "B", Some (19 # 20)%Q); (0%Z, "A", Some (19 # 40)%Q)]
  ∧ Scenario.show
      (hybrid_recommend (H := stable_kind) Scenario.action_only 1 "B"
         Scenario.catalog Scenario.preds_df Scenario.similarity 2
         (Scenario.q 1 10))
    = Ok []
  ∧ posters
      (hybrid_recommend (H := stable_kind) Scenario.unfiltered 1 "B"
         Scenario.catalog Scenario.preds_df Scenario.similarity 2
         (Scenario.q 1 10))
    = Ok [None; None]
  ∧ posters
      (hybrid_recommend (H := stable_kind) Scenario.with_posters 1 "B"
         Scenario.catalog Scenario.preds_df Scenario.similarity 2
         (Scenario.q 1 10))
    = Ok [Some "https://image.tmdb.org/t/p/w500/p.jpg";
          Some "https://image.tmdb.org/t/p/w500/p.jpg"].
Proof. split_and!; by vm_compute. Qed.

(** C5, amended.  The outcome of [hybrid_recommend] is decided by its
    arguments, by the module-level [selected_genres] and by the answers of
    the metadata service.  Two calls with the same arguments and the same
    [selected_genres] raise the same exception or return rows with the same
    labels, titles, scores and ids in the same order, whatever the service
    answers; the poster and the trailer of each returned row are the
    service's answers for that row's id, fetched inside the function. *)
Theorem C5_ranking_decided_by_arguments_and_filter `{K : SortKind}
    (env1 env2 : session) (user : Z) (t : string) (ms : list movie)
    (preds : gmap Z (gmap Z Qc)) (sim : list (list Qc)) (top_n : Z)
    (alpha : Qc) :
  selected_genres env1 = selected_genres env2 →
  ranked_part (hybrid_recommend env1 user t ms preds sim top_n alpha)
    = ranked_part (hybrid_recommend env2 user t ms preds sim top_n alpha)
  ∧ ∀ rows, hybrid_recommend env1 user t ms preds sim top_n alpha = Ok rows →
      Forall (λ r, rec_poster r = fetch_poster env1 (rec_id r) ∧
                   rec_trailer r = fetch_trailer env1 (rec_id r)) rows.
Proof.
  intros Hsel. unfold hybrid_recommend. rewrite <- Hsel. cbv zeta.
  case_decide; [|split; [done|intros rows E; simplify_eq; constructor]].
  destruct (preds !! user) as [row|]; [simpl|done].
  destruct (title_index _ t) as [idx|e]; [simpl|done].
  destruct (content_norm sim idx _) as [content|e]; [simpl|done].
  destruct (loc_list (A := movie) _ _) as [rows|e]; [simpl|done].
  destruct (loc_list (A := fval) _ _) as [scores|e]; [simpl|done].
  split.
  - unfold ranked_part. simpl. f_equal. apply ranked_zip_with_enrich.
  - intros ? E. injection E as <-. apply enriched_zip_with_enrich.
Qed.

Lemma C5_ranking_decided_by_arguments_and_filter_witness :
  ranked_part
      (hybrid_recommend (H := stable_kind) Scenario.unfiltered 1 "B"
         Scenario.catalog Scenario.preds_df Scenario.similarity 2
         (Scenario.q 1 10))
    = ranked_part
      (hybrid_recommend (H := stable_kind) Scenario.with_posters 1 "B"
         Scenario.catalog Scenario.preds_df Scenario.similarity 2
         (Scenario.q 1 10))
  ∧ ∀ rows,
      hybrid_recommend (H := stable_kind) Scenario.unfiltered 1 "B"
        Scenario.catalog Scenario.preds_df Scenario.similarity 2
        (Scenario.q 1 10) = Ok rows →
      Forall (λ r, rec_poster r = fetch_poster Scenario.unfiltered (rec_id r) ∧
                   rec_trailer r = fetch_trailer Scenario.unfiltered (rec_id r))
        rows.
Proof.
  apply (C5_ranking_decided_by_arguments_and_filter (K := stable_kind)).
  reflexivity.
Defined.

(** C6, as stated, fails on the source.  With the filter Action the
    candidates are two rows, [top_n = 10] exceeds that, and the seed title A
    is among them: the call raises a ValueError instead of returning the
    two rows. *)
Lemma C6_top_n_over_filtered_candidates_raises :
  length (filtered_movies (selected_genres Scenario.action_only)
            (range_index Scenario.catalog)) = 2
  ∧ hybrid_recommend (H := stable_kind) Scenario.action_only 1 "A"
      Scenario.catalog Scenario.preds_df Scenario.similarity 10
      (Scenario.q 1 10) = Raised ValueError.
Proof. split; by vm_compute. Qed.

(** The order of rows with equal scores is the sorting algorithm's: the
    source calls [sort_values] without [kind='stable'].  Two algorithms
    that both sort in descending order return the tied rows A and B in the
    two possible orders. *)
Lemma tie_order_follows_sort_kind :
  let row : gmap Z Qc :=
    {[ 0%Z := Scenario.q 1 1; 1%Z := Scenario.q 1 1; 7%Z := Scenario.q 5 1 ]} in
  Scenario.show
    (hybrid_recommend (H := stable_kind) Scenario.unfiltered 1 "A"
       Scenario.pair_catalog {[ 1%Z := row ]} Scenario.pair_similarity 10 1%Qc)
    = Ok [(0%Z, "A", Some (0 # 1)%Q); (1%Z, "B", Some (0 # 1)%Q)]
  ∧ Scenario.show
      (hybrid_recommend (H := reversing_kind) Scenario.unfiltered 1 "A"
         Scenario.pair_catalog {[ 1%Z := row ]} Scenario.pair_similarity 10
         1%Qc)
    = Ok [(1%Z, "B", Some (0 # 1)%Q); (0%Z, "A", Some (0 # 1)%Q)].
Proof. split; by vm_compute. Qed.

(** C6, amended.  When the genre filter keeps every row of the catalog, the
    user has a row in the prediction table, the seed title is in the
    catalog and [top_n] is not negative, [hybrid_recommend] returns rows
    ordered by descending hybrid score, NaN scores last; rows with equal
    scores stand in the order the sorting algorithm leaves them in.  It
    returns [min top_n (len catalog)] rows, so all of them and no more when
    [top_n] exceeds the catalog; no label occurs twice and every row is a
    row of the catalog. *)
Theorem C6_descending_and_truncated `{K : SortKind} (env : session) (user : Z)
    (t : string) (ms : list movie) (preds : gmap Z (gmap Z Qc))
    (sim : list (list Qc)) (top_n : Z) (alpha : Qc) (row : gmap Z Qc) :
  filtered_movies (selected_genres env) (range_index ms) = range_index ms →
  t ∈ titles (range_index ms) →
  preds !! user = Some row →
  length sim = length ms →
  Forall (λ r, length r = length ms) sim →
  (0 ≤ top_n)%Z →
  ∃ rows,
    hybrid_recommend env user t ms preds sim top_n alpha = Ok rows
    ∧ StronglySorted
        (λ r1 r2, score_geb (rec_hybrid_score r1) (rec_hybrid_score r2) = true)
        rows
    ∧ length rows = Z.to_nat top_n `min` length ms
    ∧ NoDup (rec_label <$> rows)
    ∧ Forall (λ r, ∃ i m, rec_label r = Z.of_nat i ∧ ms !! i = Some m ∧
                         rec_title r = title m ∧ rec_id r = id m) rows.
Proof.
  intros Hw Ht Hp Hlen Hrows Hn.
  destruct (hybrid_recommend_Ok env user t ms preds sim top_n alpha row)
    as (idx & srow & lo & hi & content & hybrid & rows & _ & _ & _ & _ & _
        & _ & _ & _ & Hfst & Hrec & Hls & Hall); [done..|].
  rewrite head_nonneg in Hls by done.
  exists rows. split_and!; [done| | | |].
  - apply (StronglySorted_fmap_inv label_score desc). rewrite Hls.
    apply StronglySorted_take, sort_values_sorted.
  - rewrite <- (length_fmap label_score), Hls, length_take.
    rewrite (Permutation_length (sort_values_perm hybrid)).
    by rewrite <- (length_fmap fst hybrid), Hfst, length_index,
      length_range_index.
  - assert (rec_label <$> rows = (label_score <$> rows).*1) as ->
      by by rewrite <- list_fmap_compose.
    rewrite Hls. apply (sublist_NoDup _ (sort_values hybrid).*1).
    + rewrite sort_values_perm. fold (index (range_index ms)) in Hfst.
      rewrite Hfst. apply index_range_index_NoDup.
    + apply fmap_sublist, sublist_take.
  - eapply Forall_impl; [exact Hall|]. intros r (m & Hm & Hr).
    apply elem_of_range_index in Hm as (i & Hi & Hm).
    exists i, m. rewrite Hr. simpl. split_and!; done.
Qed.

Lemma C6_descending_and_truncated_witness :
  ∃ rows,
    hybrid_recommend (H := stable_kind) Scenario.unfiltered 1 "A"
      Scenario.catalog Scenario.preds_df Scenario.similarity 10
      (Scenario.q 1 10) = Ok rows
    ∧ StronglySorted
        (λ r1 r2, score_geb (rec_hybrid_score r1) (rec_hybrid_score r2) = true)
        rows
    ∧ length rows = Z.to_nat 10 `min` length Scenario.catalog
    ∧ NoDup (rec_label <$> rows)
    ∧ Forall (λ r, ∃ i m, rec_label r = Z.of_nat i ∧
                         Scenario.catalog !! i = Some m ∧
                         rec_title r = title m ∧ rec_id r = id m) rows.
Proof.
  apply (C6_descending_and_truncated (K := stable_kind) Scenario.unfiltered
           1 "A" Scenario.catalog Scenario.preds_df Scenario.similarity 10
           (Scenario.q 1 10)
           {[ 0%Z := Scenario.q 2 1; 1%Z := Scenario.q 3 1;
              2%Z := Scenario.q 2 1; 3%Z := Scenario.q 5 1;
              4%Z := Scenario.q 1 1 ]}).
  - reflexivity.
  - by_evaluation.
  - reflexivity.
  - reflexivity.
  - by repeat constructor.
  - lia.
Defined.

(** ** The blend at the two ends of [alpha] (C7) *)

Section blend_facts.
Local Open Scope Qc_scope.









End blend_facts.




(** ** Raising one CF score (C8) *)

Section monotone_facts.
Local Open Scope Qc_scope.










End monotone_facts.

Section rank_facts.
Context `{K : SortKind}.









End rank_facts.





(** ** Further properties of the ranking *)

Section score_facts.
Local Open Scope Qc_scope.




Lemma fadd_zero_scaled (alpha : Qc) (x : fval) :
  fadd (fmul (Fin alpha) (Fin 0)) x = x.
Proof.
  destruct x as [y|s|]; simpl; [|done..]. f_equal. ring.
Qed.

End score_facts.



(** X2.  The CF scores are aligned by label.  When no index label of the
    catalog is a column of the user's row (a prediction table keyed by
    movie id, say, against a catalog indexed by position), every aligned
    CF score is the fill value 0 and the score of each returned row is
    [(1 - alpha)] times its normalised similarity to the seed: the user's
    predictions have no influence. *)
Theorem X2_unmatched_columns_leave_content_only `{K : SortKind}
    (env : session) (user : Z) (t : string) (ms : list movie)
    (preds : gmap Z (gmap Z Qc)) (sim : list (list Qc)) (top_n : Z)
    (alpha : Qc) (row : gmap Z Qc) :
  filtered_movies (selected_genres env) (range_index ms) = range_index ms →
  t ∈ titles (range_index ms) →
  preds !! user = Some row →
  length sim = length ms →
  Forall (λ r, length r = length ms) sim →
  (∀ l, l ∈ index (range_index ms) → row !! l = None) →
  ∃ idx content rows,
    title_index (range_index ms) t = Ok idx
    ∧ content_norm sim idx (index (range_index ms)) = Ok content
    ∧ hybrid_recommend env user t ms preds sim top_n alpha = Ok rows
    ∧ Forall (λ r, ∃ c, (rec_label r, c) ∈ content ∧
                   rec_hybrid_score r = fmul (Fin (1 - alpha)%Qc) c) rows.
Proof.
  intros Hw Ht Hp Hlen Hrows Hnone.
  destruct (hybrid_recommend_Ok env user t ms preds sim top_n alpha row)
    as (idx & srow & lo & hi & content & hybrid & rows & Hidx & Hrow
        & Hsl & Hlo & Hhi & Hc & Hcn & Hh & Hfst & Hrec & Hls & _); [done..|].
  exists idx, content, rows. split_and!; [done..|].
  assert (Forall (λ p, ∃ c, (p.1, c) ∈ content ∧
                       p.2 = fmul (Fin (1 - alpha)%Qc) c) hybrid) as Hall.
  { apply Forall_lookup. intros i [l s] Hi.
    assert (index (range_index ms) !! i = Some l) as Hl.
    { fold (index (range_index ms)) in Hfst.
      rewrite <- Hfst, list_lookup_fmap, Hi. done. }
    pose proof (cf_norm_lookup row _ _ _ Hl) as Hcf.
    rewrite (Hnone l) in Hcf by (apply list_elem_of_lookup; eauto).
    assert (content.*1 = index (range_index ms)) as Hcfst.
    { rewrite Hc. apply fst_zip.
      rewrite length_fmap, length_index, length_range_index. lia. }
    destruct (content !! i) as [[l' d]|] eqn:Hd.
    - assert (l' = l) as ->.
      { apply (f_equal (λ x, x !! i)) in Hcfst.
        rewrite list_lookup_fmap, Hd, Hl in Hcfst. by injection Hcfst. }
      rewrite Hh, (hybrid_scores_lookup _ _ _ _ _ _ _ _ Hcf Hd) in Hi.
      injection Hi as <-. exists d. simpl. split.
      + apply list_elem_of_lookup. eauto.
      + apply fadd_zero_scaled.
    - apply lookup_ge_None in Hd. apply lookup_lt_Some in Hl.
      rewrite <- Hcfst, length_fmap in Hl. lia. }
  rewrite Forall_forall in Hall. apply Forall_forall. intros r Hr.
  apply (Hall (label_score r)).
  assert (label_score r ∈ label_score <$> rows) as Hin
    by (apply list_elem_of_fmap; eauto).
  rewrite Hls in Hin. apply head_subseteq in Hin.
  by rewrite sort_values_perm in Hin.
Qed.

Lemma X2_unmatched_columns_leave_content_only_witness :
  ∃ idx content rows,
    title_index (range_index Scenario.pair_catalog) "A" = Ok idx
    ∧ content_norm Scenario.pair_similarity idx
        (index (range_index Scenario.pair_catalog)) = Ok content
    ∧ hybrid_recommend (H := stable_kind) Scenario.unfiltered 1 "A"
        Scenario.pair_catalog
        {[ 1%Z := {[ 10%Z := Scenario.q 4 1; 11%Z := Scenario.q 1 1 ]} ]}
        Scenario.pair_similarity 10 (Scenario.q 1 10) = Ok rows
    ∧ Forall (λ r, ∃ c, (rec_label r, c) ∈ content ∧
                   rec_hybrid_score r =
                     fmul (Fin (1 - Scenario.q 1 10)%Qc) c) rows.
Proof.
  apply (X2_unmatched_columns_leave_content_only (K := stable_kind)
           Scenario.unfiltered 1 "A" Scenario.pair_catalog _
           Scenario.pair_similarity 10 (Scenario.q 1 10)
           {[ 10%Z := Scenario.q 4 1; 11%Z := Scenario.q 1 1 ]}).
  - reflexivity.
  - by_evaluation.
  - reflexivity.
  - reflexivity.
  - by repeat constructor.
  - intros l Hl. vm_compute in Hl.
    apply elem_of_cons in Hl as [->|Hl]; [reflexivity|].
    apply elem_of_cons in Hl as [->|Hl]; [reflexivity|].
    by apply elem_of_nil in Hl.
Defined.



(** ** Loading the catalog *)

Section split_facts.
Variable sep : ascii.

Lemma split_not_nil (s : string) : Loader.split sep s ≠ [].
Proof.
  destruct s as [|c r]; simpl; [done|].
  destruct (decide (c = sep)); [done|]. by destruct (Loader.split sep r).
Qed.

Lemma concat_cons (x : string) (l : list string) :
  l ≠ [] →
  String.concat (String sep EmptyString) (x :: l) =
    x +:+ String sep (String.concat (String sep EmptyString) l).
Proof. destruct l; [done|]. done. Qed.

Lemma concat_split (s : string) :
  String.concat (String sep EmptyString) (Loader.split sep s) = s.
Proof.
  induction s as [|c r IH]; simpl; [done|].
  destruct (decide (c = sep)) as [->|Hne].
  - rewrite concat_cons by apply split_not_nil. simpl. by rewrite IH.
  - pose proof (split_not_nil r) as Hnil.
    destruct (Loader.split sep r) as [|h t]; [done|].
    destruct t as [|h' t].
    + simpl in *. by rewrite IH.
    + rewrite concat_cons by done. rewrite concat_cons in IH by done.
      by rewrite <- IH.
Qed.

Lemma split_parts_free (s : string) :
  Forall (λ g, Loader.contains sep g = false) (Loader.split sep s).
Proof.
  induction s as [|c r IH]; simpl; [by repeat constructor|].
  destruct (decide (c = sep)) as [->|Hne].
  - by constructor.
  - pose proof (split_not_nil r) as Hnil.
    destruct (Loader.split sep r) as [|h t]; [done|].
    apply Forall_cons in IH as [Hh Ht]. constructor; [|done].
    simpl. by rewrite bool_decide_eq_false_2, Hh.
Qed.

Lemma split_free (s : string) :
  Loader.contains sep s = false → Loader.split sep s = [s].
Proof.
  induction s as [|c r IH]; simpl; [done|].
  intros [Hc Hr]%orb_false_iff. apply bool_decide_eq_false_1 in Hc.
  rewrite decide_False by done. by rewrite IH.
Qed.

Lemma split_app_sep (h r : string) :
  Loader.contains sep h = false →
  Loader.split sep (h +:+ String sep r) = h :: Loader.split sep r.
Proof.
  induction h as [|c h IH]; simpl.
  - intros _. by rewrite decide_True.
  - intros [Hc Hh]%orb_false_iff. apply bool_decide_eq_false_1 in Hc.
    rewrite decide_False by done. by rewrite IH.
Qed.

Lemma split_concat (l : list string) :
  l ≠ [] → Forall (λ g, Loader.contains sep g = false) l →
  Loader.split sep (String.concat (String sep EmptyString) l) = l.
Proof.
  induction l as [|x l IH]; [done|]. intros _ [Hx Hl]%Forall_cons.
  destruct l as [|y l].
  - simpl. by apply split_free.
  - rewrite concat_cons by done. rewrite split_app_sep by done.
    by rewrite IH.
Qed.

End split_facts.

(** X4.  Splitting and joining on ['|'] are inverse to each other: joining
    the pieces of [s.split('|')] with ['|'] gives [s] back, no piece
    contains a ['|'], and there is always at least one piece (the empty
    string splits into one empty genre); conversely a non-empty list of
    pipe-free genres joined with ['|'] splits into that list. *)
Theorem X4_split_join_round_trip :
  (∀ s : string,
     String.concat "|" (Loader.split Loader.pipe s) = s
     ∧ Forall (λ g, Loader.contains Loader.pipe g = false)
         (Loader.split Loader.pipe s)
     ∧ Loader.split Loader.pipe s ≠ [])
  ∧ (∀ l : list string,
       l ≠ [] → Forall (λ g, Loader.contains Loader.pipe g = false) l →
       Loader.split Loader.pipe (String.concat "|" l) = l).
Proof.
  split.
  - intros s. split_and!.
    + apply (concat_split Loader.pipe).
    + apply split_parts_free.
    + apply split_not_nil.
  - intros l. apply (split_concat Loader.pipe).
Qed.

Lemma X4_split_join_round_trip_witness :
  Loader.split Loader.pipe (String.concat "|" ["Action"; ""; "Sci-Fi"])
    = ["Action"; ""; "Sci-Fi"]
  ∧ String.concat "|" (Loader.split Loader.pipe "Action||Sci-Fi")
    = "Action||Sci-Fi".
Proof.
  split.
  - apply (proj2 X4_split_join_round_trip); [done|by repeat constructor].
  - apply (proj1 X4_split_join_round_trip).
Defined.

Lemma mapM_zip_with_Forall2 {A B C} (f : A → option B) (g : A → B → C)
    (l : list A) (k : list B) :
  mapM f l = Some k →
  Forall2 (λ x z, ∃ y, f x = Some y ∧ z = g x y) l (zip_with g l k).
Proof.
  intros H%mapM_Some_1. induction H; simpl; constructor; eauto.
Qed.

(** X5.  When the file has a [tags] column, [load_movies] takes the genres
    of every row from it and never looks at [genres]: a row keeps its id
    and title, a NaN tag gives the empty list whatever the row's [genres]
    cell holds, and a text tag gives its pieces, which joined with ['|']
    are the tag again.  The load fails exactly when some tag is a number.
    Without a [tags] column the same holds for the [genres] column. *)
Theorem X5_load_movies_genres (file : Loader.csv) :
  let column (r : Loader.csv_row) : Loader.cell :=
    if Loader.has_tags file then Loader.csv_tags r else Loader.csv_genres r in
  Loader.has_tags file = true ∨ Loader.has_genres file = true →
  (Loader.load_movies file = Loader.AttributeError
   ↔ Exists (λ r, column r = Loader.Number) (Loader.csv_rows file))
  ∧ ∀ ms, Loader.load_movies file = Loader.Loaded ms →
      Forall2 (λ r m,
          id m = Loader.csv_id r ∧ title m = Loader.csv_title r ∧
          match column r with
          | Loader.Text s =>
              String.concat "|" (genres_list m) = s ∧ genres_list m ≠ []
          | _ => genres_list m = []
          end)
        (Loader.csv_rows file) ms.
Proof.
  intros column Hcol.
  assert (Loader.load_movies file =
          match mapM (λ r, Loader.genres_of_cell (column r))
                  (Loader.csv_rows file) with
          | Some gss =>
              Loader.Loaded (zip_with Loader.with_genres
                               (Loader.csv_rows file) gss)
          | None => Loader.AttributeError
          end) as ->.
  { unfold Loader.load_movies, column.
    destruct (Loader.has_tags file); [done|].
    destruct (Loader.has_genres file); [done|]. by destruct Hcol. }
  destruct (mapM _ _) as [gss|] eqn:E.
  - split.
    + split; [done|]. intros Hex.
      assert (mapM (λ r, Loader.genres_of_cell (column r))
                (Loader.csv_rows file) = None) as E'; [|congruence].
      apply mapM_None_2. eapply Exists_impl; [exact Hex|].
      intros r Hr. simpl. by rewrite Hr.
    + intros ms [= <-].
      eapply Forall2_impl;
        [exact (mapM_zip_with_Forall2 _ Loader.with_genres _ _ E)|].
      intros r m (gs & Hgs & ->). simpl. split_and!; [done..|].
      destruct (column r) as [|s|]; simpl in Hgs; simplify_eq; [done|].
      split; [apply (concat_split Loader.pipe)|apply split_not_nil].
  - split; [|done]. split; [|done]. intros _.
    apply mapM_None_1 in E. eapply Exists_impl; [exact E|].
    intros r Hr. simpl in Hr. by destruct (column r).
Qed.

Lemma X5_load_movies_genres_witness :
  let file := Loader.Csv true true
                [Loader.CsvRow 10 "A" (Loader.Text "Action|Drama")
                   (Loader.Text "Comedy");
                 Loader.CsvRow 11 "B" Loader.Missing (Loader.Text "Drama")] in
  Loader.load_movies file
    = Loader.Loaded [Movie 10 "A" ["Action"; "Drama"]; Movie 11 "B" []]
  ∧ (Loader.load_movies file = Loader.AttributeError
     ↔ Exists (λ r, (if Loader.has_tags file then Loader.csv_tags r
                     else Loader.csv_genres r) = Loader.Number)
         (Loader.csv_rows file)).
Proof.
  split; [reflexivity|].
  apply (X5_load_movies_genres
           (Loader.Csv true true
              [Loader.CsvRow 10 "A" (Loader.Text "Action|Drama")
                 (Loader.Text "Comedy");
               Loader.CsvRow 11 "B" Loader.Missing (Loader.Text "Drama")])).
  by left.
Defined.

Lemma elem_of_all_genres (ms : list movie) (g : string) :
  g ∈ Loader.all_genres ms ↔ ∃ m, m ∈ ms ∧ g ∈ genres_list m.
Proof.
  unfold Loader.all_genres.
  rewrite merge_sort_Permutation, elem_of_remove_dups, list_elem_of_join.
  split.
  - intros (gs & Hg & (m & -> & Hm)%list_elem_of_fmap). eauto.
  - intros (m & Hm & Hg). exists (genres_list m). split; [done|].
    apply list_elem_of_fmap. eauto.
Qed.

(** X6.  The genres offered in the sidebar are exactly the genres that
    occur in some movie's [genres_list], each once, in ascending order. *)
Theorem X6_all_genres_sorted_and_exact (ms : list movie) :
  StronglySorted String.le (Loader.all_genres ms)
  ∧ NoDup (Loader.all_genres ms)
  ∧ ∀ g, g ∈ Loader.all_genres ms ↔ ∃ m, m ∈ ms ∧ g ∈ genres_list m.
Proof.
  split_and!.
  - apply (StronglySorted_merge_sort String.le).
  - unfold Loader.all_genres. rewrite merge_sort_Permutation.
    apply NoDup_remove_dups.
  - apply elem_of_all_genres.
Qed.

(** X7.  Filtering by offered genres never empties the candidates: if the
    selection contains a genre of [all_genres], some row of the catalog
    that carries this genre survives the filter of lines 114-117. *)
Theorem X7_offered_genre_keeps_a_candidate (sel : list string)
    (ms : list movie) (g : string) :
  g ∈ sel → g ∈ Loader.all_genres ms →
  ∃ l m, (l, m) ∈ filtered_movies sel (range_index ms) ∧ g ∈ genres_list m.
Proof.
  intros Hsel (m & Hm & Hg)%elem_of_all_genres.
  apply list_elem_of_lookup in Hm as [i Hi].
  exists (Z.of_nat i), m. split; [|done].
  assert ((Z.of_nat i, m) ∈ range_index ms) as Hin
    by (apply elem_of_range_index; eauto).
  destruct sel as [|g0 sel]; [by apply elem_of_nil in Hsel|].
  unfold filtered_movies. apply list_elem_of_filter. split; [|done].
  unfold genre_match. apply existsb_exists. exists g. split.
  - by apply list_elem_of_In.
  - by apply bool_decide_eq_true_2.
Qed.

Lemma X7_offered_genre_keeps_a_candidate_witness :
  ∃ l m, (l, m) ∈ filtered_movies ["Comedy"; "Drama"]
                    (range_index Scenario.catalog)
         ∧ "Drama" ∈ genres_list m.
Proof.
  apply X7_offered_genre_keeps_a_candidate; by_evaluation.
Defined.

(** ** The metadata lookups *)

Section metadata_facts.
Import Metadata.

Lemma first_trailer_passed_over (str_of : json → string) (pre rest : list json) :
  Forall passed_over pre →
  first_trailer str_of (pre ++ rest) = first_trailer str_of rest.
Proof.
  induction 1 as [|v pre (ty & Hty & Hv) _ IH]; [done|].
  simpl. rewrite Hty. simpl.
  destruct Hv as [Hno|(site & Hsite & Hno)].
  - by rewrite Hno.
  - destruct (is_str ty "Trailer"); [|done]. rewrite Hsite. simpl.
    by rewrite Hno.
Qed.

Lemma first_trailer_found (str_of : json → string) (v key : json)
    (post : list json) :
  youtube_trailer v key →
  first_trailer str_of (v :: post) = Some (Some (youtube_prefix +:+ str_of key)).
Proof.
  intros (ty & site & Hty & Hty' & Hsite & Hsite' & Hkey). simpl.
  rewrite Hty. simpl. rewrite Hty', Hsite. simpl. rewrite Hsite', Hkey. done.
Qed.

Lemma first_trailer_malformed (str_of : json → string) (v : json)
    (post : list json) :
  malformed v → first_trailer str_of (v :: post) = None.
Proof.
  intros [Hty|(ty & Hty & Hty' & Hrest)]; simpl; rewrite Hty; [done|].
  simpl. rewrite Hty'. destruct Hrest as [Hsite|(site & Hsite & Hs' & Hkey)].
  - by rewrite Hsite.
  - rewrite Hsite. simpl. by rewrite Hs', Hkey.
Qed.

End metadata_facts.

(** X8.  [fetch_poster] returns a URL exactly when the service answers with
    an object whose [poster_path] is a non-empty string, and the URL is
    then the image prefix followed by that path; a failed request, an
    answer that is not an object, a missing, null, empty or non-string
    [poster_path] all give [None], and nothing is raised. *)
Theorem X8_fetch_poster_url (get : Metadata.service) (movie_id : Z)
    (url : string) :
  Metadata.fetch_poster get movie_id = Some url
  ↔ ∃ fields p,
      get (Metadata.movie_url movie_id) = Some (Metadata.JObj fields)
      ∧ Metadata.field fields "poster_path" = Some (Metadata.JStr p)
      ∧ p ≠ EmptyString
      ∧ url = Metadata.poster_prefix +:+ p.
Proof.
  unfold Metadata.fetch_poster, Metadata.after_try.
  destruct (get (Metadata.movie_url movie_id)) as [data|] eqn:Hget; simpl.
  - destruct data as [| | | |items|fields]; simpl;
      try (split; [done|by intros (? & ? & ? & _)]).
    destruct (Metadata.field fields "poster_path") as [v|] eqn:Hf; simpl.
    + destruct v as [|b|x|p|items|fs]; simpl;
        try (split; [by repeat case_match|
                     by intros (? & ? & ? & ? & _); simplify_eq]).
      destruct (decide (p = EmptyString)) as [->|Hp].
      * simpl. split; [done|]. intros (? & ? & ? & ? & ? & _). by simplify_eq.
      * rewrite bool_decide_eq_false_2 by done. simpl. split.
        -- intros [= <-]. eauto 10.
        -- intros (? & ? & ? & ? & ? & ->). by simplify_eq.
    + split; [done|]. intros (? & ? & ? & ? & _). by simplify_eq.
  - split; [done|]. by intros (? & ? & ? & _).
Qed.

(** X9.  [fetch_trailer] returns the first YouTube trailer of the answer's
    [results]: when every video before it is an object that is stepped
    over, the result is the watch URL with that video's [key], whatever
    follows it in the list. *)
Theorem X9_fetch_trailer_first_match (str_of : Metadata.json → string)
    (get : Metadata.service) (movie_id : Z)
    (fields : list (string * Metadata.json))
    (pre post : list Metadata.json) (v key : Metadata.json) :
  get (Metadata.videos_url movie_id) = Some (Metadata.JObj fields) →
  Metadata.field fields "results" = Some (Metadata.JArr (pre ++ v :: post)) →
  Forall Metadata.passed_over pre →
  Metadata.youtube_trailer v key →
  Metadata.fetch_trailer str_of get movie_id
    = Some (Metadata.youtube_prefix +:+ str_of key).
Proof.
  intros Hget Hres Hpre Hv. unfold Metadata.fetch_trailer. rewrite Hget.
  simpl. rewrite Hres. simpl.
  rewrite first_trailer_passed_over by done.
  by rewrite (first_trailer_found _ _ _ _ Hv).
Qed.

Lemma X9_fetch_trailer_first_match_witness :
  let clip := Metadata.JObj [("type", Metadata.JStr "Clip")] in
  let trailer k :=
    Metadata.JObj [("type", Metadata.JStr "Trailer");
                   ("site", Metadata.JStr "YouTube");
                   ("key", Metadata.JStr k)] in
  let get : Metadata.service := λ _,
    Some (Metadata.JObj
            [("id", Metadata.JNum 0%Qc);
             ("results", Metadata.JArr ([clip] ++ trailer "abc"
                                          :: [trailer "xyz"]))]) in
  Metadata.fetch_trailer Metadata.text_of get 10
    = Some (Metadata.youtube_prefix +:+
            Metadata.text_of (Metadata.JStr "abc")).
Proof.
  intros clip trailer get.
  apply (X9_fetch_trailer_first_match Metadata.text_of get 10
           [("id", Metadata.JNum 0%Qc);
            ("results", Metadata.JArr ([clip] ++ trailer "abc"
                                         :: [trailer "xyz"]))]
           [clip] [trailer "xyz"] (trailer "abc") (Metadata.JStr "abc")).
  - reflexivity.
  - reflexivity.
  - constructor; [|constructor].
    exists (Metadata.JStr "Clip"). split; [reflexivity|by left].
  - exists (Metadata.JStr "Trailer"), (Metadata.JStr "YouTube").
    split_and!; reflexivity.
Defined.

(** X10.  One malformed video hides every trailer behind it: when the
    videos before it are stepped over and the loop of [fetch_trailer]
    raises on it (it is not an object, or lacks [type], [site] or [key]
    where they are read), the bare [except] answers [None] even if a valid
    YouTube trailer follows.  When every video is stepped over the result
    is [None] as well. *)
Theorem X10_fetch_trailer_malformed_entry (str_of : Metadata.json → string)
    (get : Metadata.service) (movie_id : Z)
    (fields : list (string * Metadata.json))
    (pre post : list Metadata.json) (v : Metadata.json) :
  get (Metadata.videos_url movie_id) = Some (Metadata.JObj fields) →
  Forall Metadata.passed_over pre →
  (Metadata.field fields "results" = Some (Metadata.JArr (pre ++ v :: post))
   ∧ Metadata.malformed v)
  ∨ Metadata.field fields "results" = Some (Metadata.JArr pre) →
  Metadata.fetch_trailer str_of get movie_id = None.
Proof.
  intros Hget Hpre [[Hres Hv]|Hres]; unfold Metadata.fetch_trailer;
    rewrite Hget; simpl; rewrite Hres; simpl.
  - rewrite first_trailer_passed_over by done.
    by rewrite (first_trailer_malformed _ _ _ Hv).
  - rewrite <- (app_nil_r pre), first_trailer_passed_over by done. done.
Qed.

Lemma X10_fetch_trailer_malformed_entry_witness :
  let clip := Metadata.JObj [("type", Metadata.JStr "Clip")] in
  let trailer k :=
    Metadata.JObj [("type", Metadata.JStr "Trailer");
                   ("site", Metadata.JStr "YouTube");
                   ("key", Metadata.JStr k)] in
  let get : Metadata.service := λ _,
    Some (Metadata.JObj
            [("results", Metadata.JArr ([clip] ++ Metadata.JNull
                                          :: [trailer "xyz"]))]) in
  Metadata.fetch_trailer Metadata.text_of get 10 = None.
Proof.
  intros clip trailer get.
  apply (X10_fetch_trailer_malformed_entry Metadata.text_of get 10
           [("results", Metadata.JArr ([clip] ++ Metadata.JNull
                                         :: [trailer "xyz"]))]
           [clip] [trailer "xyz"] Metadata.JNull).
  - reflexivity.
  - constructor; [|constructor].
    exists (Metadata.JStr "Clip"). split; [reflexivity|by left].
  - left. split; [reflexivity|by left].
Defined.

(** X11.  [fetch_movie_details] answers all or nothing.  For an object
    whose [genres] are objects with a [name], every field is the answer's
    field, a missing [homepage] becoming the movie's page on
    themoviedb.org; as soon as one genre has no [name] the whole record is
    the fallback of line 87, so the overview is lost too and the homepage
    is the empty string. *)
Theorem X11_fetch_movie_details_all_or_nothing (get : Metadata.service)
    (movie_id : Z) (fields : list (string * Metadata.json))
    (gs : list Metadata.json) :
  get (Metadata.movie_url movie_id) = Some (Metadata.JObj fields) →
  Metadata.field fields "genres" = Some (Metadata.JArr gs) →
  (Exists (λ g, Metadata.getitem g "name" = None) gs →
   Metadata.fetch_movie_details get movie_id = Metadata.no_details)
  ∧ (∀ names,
       Forall2 (λ g n, Metadata.getitem g "name" = Some n) gs names →
       Metadata.fetch_movie_details get movie_id =
         {| Metadata.overview :=
              default (Metadata.JStr "") (Metadata.field fields "overview");
            Metadata.genres := names;
            Metadata.homepage :=
              default
                (Metadata.JStr (Metadata.tmdb_prefix +:+ pretty movie_id))
                (Metadata.field fields "homepage");
            Metadata.release_date :=
              default (Metadata.JStr "")
                (Metadata.field fields "release_date");
            Metadata.rating :=
              default (Metadata.JNum 0%Qc)
                (Metadata.field fields "vote_average") |}).
Proof.
  intros Hget Hgs. unfold Metadata.fetch_movie_details. rewrite Hget. simpl.
  rewrite Hgs. simpl. split.
  - intros Hex. by rewrite (mapM_None_2 _ _ Hex).
  - intros names Hall. by rewrite (mapM_Some_2 _ _ _ Hall).
Qed.

Lemma X11_fetch_movie_details_all_or_nothing_witness :
  let fields :=
    [("overview", Metadata.JStr "A heist.");
     ("genres", Metadata.JArr [Metadata.JObj [("id", Metadata.JNum 1%Qc)]])] in
  Metadata.fetch_movie_details (λ _, Some (Metadata.JObj fields)) 10
    = Metadata.no_details.
Proof.
  intros fields.
  apply (proj1 (X11_fetch_movie_details_all_or_nothing
                  (λ _, Some (Metadata.JObj fields)) 10 fields
                  [Metadata.JObj [("id", Metadata.JNum 1%Qc)]]
                  eq_refl eq_refl)).
  by left.
Defined.

(** ** The page *)

Section page_facts.
Import Metadata Ui.

Lemma char_length_take_chars (n : nat) (s : string) :
  char_length (take_chars n s) ≤ n.
Proof.
  revert n. induction s as [|c r IH]; intros n; simpl; [lia|].
  destruct (is_continuation c) eqn:E; simpl.
  - rewrite E. apply IH.
  - destruct n as [|n]; simpl; [lia|]. rewrite E.
    specialize (IH n). lia.
Qed.

Lemma take_chars_all (n : nat) (s : string) :
  char_length s ≤ n → take_chars n s = s.
Proof.
  revert n. induction s as [|c r IH]; intros n; simpl; [done|].
  destruct (is_continuation c) eqn:E.
  - intros Hn. by rewrite IH.
  - destruct n as [|n]; [lia|]. intros Hn. rewrite IH; [done|lia].
Qed.

Lemma char_length_app (a b : string) :
  char_length (a +:+ b) = char_length a + char_length b.
Proof.
  induction a as [|c a IH]; simpl; [done|].
  destruct (is_continuation c); lia.
Qed.



Lemma strict_filter_raised `{K : SortKind} (env : session) (user : Z)
    (t : string) (ms : list movie) (preds : gmap Z (gmap Z Qc))
    (sim : list (list Qc)) (top_n : Z) (alpha : Qc) :
  length (filtered_movies (selected_genres env) (range_index ms)) < length ms →
  t ∈ titles (filtered_movies (selected_genres env) (range_index ms)) →
  length sim = length ms →
  Forall (λ r, length r = length ms) sim →
  ∃ e, hybrid_recommend env user t ms preds sim top_n alpha = Raised e.
Proof.
  intros Hlt Ht Hlen Hrows.
  unfold hybrid_recommend. rewrite decide_True by done.
  destruct (preds !! user) as [row|]; [|by eexists]. simpl.
  destruct (seed_row _ t ms sim (filtered_movies_subseteq _ _) Ht Hlen Hrows)
    as (i & seed & srow & lo & hi & Hidx & _ & _ & Hs & Hsl & Hlo & Hhi).
  rewrite Hidx. simpl. rewrite (content_norm_Ok _ _ _ _ _ _ Hs Hlo Hhi).
  unfold mk_series. rewrite decide_False; [by eexists|].
  rewrite length_fmap, length_index. lia.
Qed.

End page_facts.

(** X12.  The caption under a poster is the first 120 characters of the
    overview followed by three dots: it never has more than 123
    characters, and an overview of 120 characters or fewer is shown whole
    and still gets the dots. *)
Theorem X12_caption_is_bounded (get : Metadata.service) (r : Ui.shown_row)
    (p text : string) :
  Ui.present (Ui.row_poster r) = Some p →
  Metadata.overview (Metadata.fetch_movie_details get (Ui.row_id r))
    = Metadata.JStr text →
  text ≠ EmptyString →
  ∃ heading caption,
    Ui.display_column get r
      = Some [heading; Ui.Image p; Ui.Caption caption]
    ∧ caption = Ui.take_chars 120 text +:+ "..."
    ∧ Ui.char_length caption ≤ 123
    ∧ (Ui.char_length text ≤ 120 → caption = text +:+ "...").
Proof.
  intros Hp Hov Htext. unfold Ui.display_column. rewrite Hp, Hov. simpl.
  rewrite bool_decide_eq_false_2 by done. simpl.
  eexists _, _. split_and!; [done..| |].
  - rewrite char_length_app.
    pose proof (char_length_take_chars 120 text). simpl. lia.
  - intros Hlen. by rewrite take_chars_all.
Qed.

Lemma X12_caption_is_bounded_witness :
  let get : Metadata.service := λ _,
    Some (Metadata.JObj [("overview", Metadata.JStr "A heist.")]) in
  let r := Ui.ShownRow "A" (Some "https://image.tmdb.org/t/p/w500/a.jpg")
             None 10 in
  ∃ heading caption,
    Ui.display_column get r
      = Some [heading; Ui.Image "https://image.tmdb.org/t/p/w500/a.jpg";
              Ui.Caption caption]
    ∧ caption = Ui.take_chars 120 "A heist." +:+ "..."
    ∧ Ui.char_length caption ≤ 123
    ∧ (Ui.char_length "A heist." ≤ 120 → caption = "A heist." +:+ "...").
Proof.
  intros get r.
  apply (X12_caption_is_bounded get r
           "https://image.tmdb.org/t/p/w500/a.jpg" "A heist.");
    [reflexivity|reflexivity|done].
Defined.


(** X14.  [trending_movies] raises a ValueError when [top_n] is negative or
    exceeds the catalog, so the page's call with [top_n = 10] fails on
    every catalog of fewer than ten movies.  Otherwise it returns exactly
    [top_n] rows, one for each position the generator drew: the title and
    id of the catalog movie there, with the poster and trailer the
    metadata lookups give for that id. *)
Theorem X14_trending_movies_sample (env : session) (draw : list nat)
    (ms : list movie) (top_n : Z) :
  ((top_n < 0)%Z ∨ (Z.of_nat (length ms) < top_n)%Z →
   Ui.trending_movies env draw ms top_n = Raised ValueError)
  ∧ (Ui.valid_draw draw top_n (length ms) →
     ∃ rows,
       Ui.trending_movies env draw ms top_n = Ok rows
       ∧ Z.of_nat (length rows) = top_n
       ∧ Forall2 (λ i r, ∃ m,
             ms !! i = Some m ∧ Ui.row_title r = title m ∧
             Ui.row_id r = id m ∧
             Ui.row_poster r = fetch_poster env (id m) ∧
             Ui.row_trailer r = fetch_trailer env (id m)) draw rows).
Proof.
  unfold Ui.trending_movies, Ui.sample. split.
  - intros Hn.
    destruct (Z.ltb_spec top_n 0), (Z.ltb_spec (Z.of_nat (length ms)) top_n);
      simpl; try done. lia.
  - intros (Hnd & Hin & Hlen).
    destruct (Z.ltb_spec top_n 0), (Z.ltb_spec (Z.of_nat (length ms)) top_n);
      simpl; try lia.
    + assert (draw ⊆+ seq 0 (length ms)) as Hsub.
      { apply NoDup_submseteq; [done|]. intros i Hi. apply elem_of_seq.
        rewrite Forall_forall in Hin. specialize (Hin i Hi). lia. }
      apply submseteq_length in Hsub. rewrite length_seq in Hsub. lia.
    + eexists. split; [done|].
      assert (Forall2 (λ i m, ms !! i = Some m) draw
                (omap (λ i, ms !! i) draw)) as Hall.
      { clear -Hin. induction Hin as [|i draw Hi _ IH]; simpl; [constructor|].
        destruct (lookup_lt_is_Some_2 ms i Hi) as [m Hm]. rewrite Hm.
        simpl. by constructor. }
      split.
      * rewrite length_fmap, <- (Forall2_length _ _ _ Hall). lia.
      * apply Forall2_fmap_r. eapply Forall2_impl; [exact Hall|].
        intros i m Hm. exists m. by split_and!.
Qed.

Lemma X14_trending_movies_sample_witness :
  Ui.trending_movies Scenario.unfiltered [3; 0] Scenario.catalog 10
    = Raised ValueError
  ∧ ∃ rows,
      Ui.trending_movies Scenario.unfiltered [3; 0] Scenario.catalog 2
        = Ok rows
      ∧ Z.of_nat (length rows) = 2%Z
      ∧ Forall2 (λ i r, ∃ m,
            Scenario.catalog !! i = Some m ∧ Ui.row_title r = title m ∧
            Ui.row_id r = id m ∧
            Ui.row_poster r = fetch_poster Scenario.unfiltered (id m) ∧
            Ui.row_trailer r = fetch_trailer Scenario.unfiltered (id m))
          [3; 0] rows.
Proof.
  split.
  - apply (proj1 (X14_trending_movies_sample Scenario.unfiltered [3; 0]
                    Scenario.catalog 10)). right. simpl. lia.
  - apply (proj2 (X14_trending_movies_sample Scenario.unfiltered [3; 0]
                    Scenario.catalog 2)).
    split_and!; [by_evaluation| |reflexivity].
    repeat constructor; simpl; lia.
Defined.

(** X15.  With a genre selection that removes at least one movie, the
    recommendation section never shows a row: it writes the warning when
    the selected movie is among the removed ones, and fails with an
    uncaught exception when it is not. *)
Theorem X15_strict_selection_shows_nothing `{K : SortKind} (env : session)
    (get : Metadata.service) (user : Z) (t : string) (ms : list movie)
    (preds : gmap Z (gmap Z Qc)) (sim : list (list Qc)) :
  length (filtered_movies (selected_genres env) (range_index ms)) < length ms →
  length sim = length ms →
  Forall (λ r, length r = length ms) sim →
  Ui.show_recommendations env get user t ms preds sim =
    if decide (t ∈ titles (filtered_movies (selected_genres env)
                             (range_index ms)))
    then Ui.Failed
    else Ui.Warning "No recommendations found!".
Proof.
  intros Hlt Hlen Hrows. unfold Ui.show_recommendations.
  destruct (decide (t ∈ _)) as [Ht|Ht].
  - destruct (strict_filter_raised env user t ms preds sim 10
                (Q2Qc (1 # 10)) Hlt Ht Hlen Hrows) as [e ->]. done.
  - unfold hybrid_recommend. by rewrite decide_False.
Qed.

Lemma X15_strict_selection_shows_nothing_witness :
  Ui.show_recommendations (H := stable_kind) Scenario.action_only
    (λ _, None) 1 "A" Scenario.catalog Scenario.preds_df Scenario.similarity
  = if decide ("A" ∈ titles (filtered_movies
                               (selected_genres Scenario.action_only)
                               (range_index Scenario.catalog)))
    then Ui.Failed
    else Ui.Warning "No recommendations found!".
Proof.
  apply (X15_strict_selection_shows_nothing (K := stable_kind)).
  - vm_compute. lia.
  - reflexivity.
  - by repeat constructor.
Defined.



Lemma fetch_poster_prefix (get : Metadata.service) (movie_id : Z)
    (url : string) :
  Metadata.fetch_poster get movie_id = Some url →
  ∃ p, p ≠ EmptyString ∧ url = Metadata.poster_prefix +:+ p.
Proof.
  unfold Metadata.fetch_poster, Metadata.after_try.
  destruct (get _) as [[| | | | |fields]|]; simpl; try done.
  destruct (default Metadata.JNull (Metadata.field fields "poster_path"))
    as [|b|x|p|items|fs]; simpl; try by repeat case_match.
  destruct (decide (p = EmptyString)) as [->|Hp]; [done|].
  rewrite bool_decide_eq_false_2 by done. simpl. intros [= <-]. eauto.
Qed.

Lemma fetch_trailer_prefix (str_of : Metadata.json → string)
    (get : Metadata.service) (movie_id : Z) (url : string) :
  Metadata.fetch_trailer str_of get movie_id = Some url →
  ∃ key, url = Metadata.youtube_prefix +:+ key.
Proof.
  unfold Metadata.fetch_trailer, Metadata.after_try.
  destruct (get _) as [data|]; simpl; [|done].
  destruct (Metadata.dict_get data "results" _) as [results|]; simpl; [|done].
  destruct (Metadata.iterate results) as [videos|]; simpl; [|done].
  assert (∀ found, Metadata.first_trailer str_of videos = Some (Some found) →
                   ∃ key, found = Metadata.youtube_prefix +:+ key) as Hloop.
  { induction videos as [|v videos IH]; intros found; simpl; [done|].
    destruct (Metadata.getitem v "type") as [ty|]; simpl; [|done].
    destruct (Metadata.is_str ty "Trailer"); [|by apply IH].
    destruct (Metadata.getitem v "site") as [site|]; simpl; [|done].
    destruct (Metadata.is_str site "YouTube"); [|by apply IH].
    destruct (Metadata.getitem v "key") as [key|]; simpl; [|done].
    intros [= <-]. eauto. }
  destruct (Metadata.first_trailer str_of videos) as [[found|]|]; simpl;
    [|done..].
  intros [= <-]. by apply Hloop.
Qed.

(** X17.  With the lookups of lines 49-72 behind it, every row that
    [hybrid_recommend] returns has either no poster or a poster URL that is
    the image prefix followed by a non-empty path, and either no trailer or
    a YouTube watch URL; so [display_row] never meets an empty poster
    string. *)
Theorem X17_returned_links_have_fixed_prefixes `{K : SortKind}
    (selected : list string) (str_of : Metadata.json → string)
    (get : Metadata.service) (user : Z) (t : string) (ms : list movie)
    (preds : gmap Z (gmap Z Qc)) (sim : list (list Qc)) (top_n : Z)
    (alpha : Qc) (rows : list recommendation) :
  hybrid_recommend (Metadata.session_of selected str_of get) user t ms preds
    sim top_n alpha = Ok rows →
  Forall (λ r,
      (rec_poster r = None ∨
       ∃ p, p ≠ EmptyString ∧
            rec_poster r = Some (Metadata.poster_prefix +:+ p)) ∧
      (rec_trailer r = None ∨
       ∃ key, rec_trailer r = Some (Metadata.youtube_prefix +:+ key)) ∧
      Ui.present (rec_poster r) = rec_poster r) rows.
Proof.
  unfold hybrid_recommend. cbv zeta.
  case_decide; [|intros [= <-]; constructor].
  destruct (preds !! user) as [row|]; [simpl|done].
  destruct (title_index _ t) as [idx|e]; [simpl|done].
  destruct (content_norm sim idx _) as [content|e]; [simpl|done].
  destruct (loc_list (A := movie) _ _) as [rws|e]; [simpl|done].
  destruct (loc_list (A := fval) _ _) as [scores|e]; [simpl|done].
  intros E. injection E as <-.
  eapply Forall_impl; [apply enriched_zip_with_enrich|].
  intros r [Hp Ht]. simpl in Hp, Ht. rewrite Hp, Ht.
  destruct (Metadata.fetch_poster get (rec_id r)) as [url|] eqn:Eu.
  - destruct (fetch_poster_prefix _ _ _ Eu) as (p & Hne & ->).
    split_and!.
    + right. eauto.
    + destruct (Metadata.fetch_trailer str_of get (rec_id r)) eqn:Et;
        [|by left].
      right. destruct (fetch_trailer_prefix _ _ _ _ Et) as [key ->]. eauto.
    + unfold Ui.present. destruct (decide _) as [E|]; [|done].
      unfold Metadata.poster_prefix in E. simpl in E. discriminate E.
  - split_and!; [by left| |done].
    destruct (Metadata.fetch_trailer str_of get (rec_id r)) eqn:Et;
      [|by left].
    right. destruct (fetch_trailer_prefix _ _ _ _ Et) as [key ->]. eauto.
Qed.

Lemma X17_returned_links_have_fixed_prefixes_witness :
  let get : Metadata.service := λ _,
    Some (Metadata.JObj [("poster_path", Metadata.JStr "a.jpg")]) in
  ∃ rows,
    hybrid_recommend (H := stable_kind)
      (Metadata.session_of [] Metadata.text_of get) 1 "A"
      Scenario.pair_catalog
      {[ 1%Z := {[ 0%Z := Scenario.q 2 1; 1%Z := Scenario.q 1 1 ]} ]}
      Scenario.pair_similarity 1 (Scenario.q 1 10) = Ok rows
    ∧ Forall (λ r,
        (rec_poster r = None ∨
         ∃ p, p ≠ EmptyString ∧
              rec_poster r = Some (Metadata.poster_prefix +:+ p)) ∧
        (rec_trailer r = None ∨
         ∃ key, rec_trailer r = Some (Metadata.youtube_prefix +:+ key)) ∧
        Ui.present (rec_poster r) = rec_poster r) rows.
Proof.
  intros get. eexists. split; [by vm_compute|].
  apply (X17_returned_links_have_fixed_prefixes (K := stable_kind) []
           Metadata.text_of get 1 "A" Scenario.pair_catalog
           {[ 1%Z := {[ 0%Z := Scenario.q 2 1; 1%Z := Scenario.q 1 1 ]} ]}
           Scenario.pair_similarity 1 (Scenario.q 1 10)).
  by vm_compute.
Defined.
